(** * ember-simple-auth: the OAuth2 password-grant authenticator and the
    internal session, embedded from the JavaScript sources.

    - [OAuth2PasswordGrant] follows the authenticator object of
      [packages/test-app/app/routes/auth-error.js] (second document of that
      file: [restore], [authenticate], [invalidate], [makeRequest],
      [_scheduleAccessTokenRefresh], [_refreshAccessToken],
      [_absolutizeExpirationTime], [_validate]).
    - [InternalSession] follows
      [packages/ember-simple-auth/src/internal-session.js].

    JavaScript objects are finite maps from property names to values,
    the values being primitives ([undefined], [null], booleans, numbers,
    strings; objects and arrays nested under a property are outside the
    model); promises are settled by explicit replies of the environment (the token
    server, the store, the looked-up authenticator); every reading of the
    clock and every draw of the random refresh offset is an input.

    Numbers are integers. The arithmetic of the sources ([*], [+], [-],
    [<], [>], [new Date(x).getTime()]) is done exactly; it is the
    arithmetic of JavaScript for integers up to [MAX_SAFE_INTEGER] and
    clock readings that are time values ([exactb], [clock]); statements
    about computed numbers say so. *)

From stdpp Require Import gmap strings list fin_maps.
From Stdlib Require Import ZArith Lia Ascii.

(** ** JavaScript values and the Ember helpers the sources import *)

Inductive value :=
| VUndef
| VNull
| VBool (b : bool)
| VNum (n : Z)
| VNaN
| VStr (s : string).

Global Instance value_eq_dec : EqDecision value.
Proof. solve_decision. Defined.

Abbreviation obj := (gmap string value).

(** [o[k]]: a missing property reads as [undefined]. *)
Definition get (o : obj) (k : string) : value := default VUndef (o !! k).

(** [isEmpty] of [@ember/utils] on the values above: [null], [undefined] and
    the empty string are empty; numbers (0 included), booleans and non-empty
    strings are not. *)
Definition isEmpty (v : value) : bool :=
  match v with
  | VUndef | VNull => true
  | VStr s => bool_decide (s = "")
  | _ => false
  end.

(** Truthiness, as used by [||], [if (x)] and [Boolean(x)]. *)
Definition truthy (v : value) : bool :=
  match v with
  | VUndef | VNull | VNaN => false
  | VBool b => b
  | VNum n => negb (n =? 0)%Z
  | VStr s => negb (bool_decide (s = ""))
  end.

(** [a || b]. *)
Definition js_or (a b : value) : value := if truthy a then a else b.

(** The number a string converts to, for the empty string and for decimal
    integer literals with an optional sign (["3600"], ["-5"], ["+07"]);
    [None] is NaN. Other spellings that JavaScript converts (surrounding
    white space, fractions, exponents, hexadecimal, [Infinity]) are not
    read: [exactb] tells the strings that are. *)
Definition digit (c : ascii) : option Z :=
  let n := Z.of_N (N_of_ascii c) in
  if ((48 <=? n) && (n <=? 57))%Z then Some (n - 48)%Z else None.

Fixpoint digits (acc : Z) (s : string) : option Z :=
  match s with
  | EmptyString => Some acc
  | String c s' => d ← digit c; digits (acc * 10 + d)%Z s'
  end.

Definition unsigned (s : string) : option Z :=
  match s with
  | EmptyString => None
  | _ => digits 0%Z s
  end.

Definition decimal (s : string) : option Z :=
  match s with
  | EmptyString => Some 0%Z
  | String "+"%char s' => unsigned s'
  | String "-"%char s' => Z.opp <$> unsigned s'
  | _ => unsigned s
  end.

(** Numeric reading of a value in arithmetic or relational position; [None]
    is NaN. *)
Definition toNumber (v : value) : option Z :=
  match v with
  | VNum n => Some n
  | VNull => Some 0%Z
  | VBool b => Some (if b then 1 else 0)%Z
  | VStr s => decimal s
  | VUndef | VNaN => None
  end.

Definition MAX_SAFE_INTEGER : Z := 9007199254740991.

(** The largest time value of a [Date], in milliseconds. *)
Definition MAX_TIME : Z := 8640000000000000.

(** The values whose numeric reading above is JavaScript's: integers up to
    [MAX_SAFE_INTEGER], strings that [decimal] reads as such an integer,
    and everything that is not a number or a string. *)
Definition exactb (v : value) : bool :=
  match v with
  | VNum n => (Z.abs n <=? MAX_SAFE_INTEGER)%Z
  | VStr s =>
      match decimal s with
      | Some n => (Z.abs n <=? MAX_SAFE_INTEGER)%Z
      | None => false
      end
  | _ => true
  end.

(** A reading of the clock: a time value, not before 1970. *)
Definition clock (now : Z) : Prop := (0 ≤ now ≤ MAX_TIME)%Z.

(** [new Date(x).getTime()] for an integer [x]: NaN outside the range of
    time values. *)
Definition timeClip (x : Z) : option Z :=
  if (Z.abs x <=? MAX_TIME)%Z then Some x else None.

Definition ofNumber (n : option Z) : value :=
  match n with Some z => VNum z | None => VNaN end.

(** [v < n] and [v > n] against a number; any comparison with NaN is false. *)
Definition js_lt (v : value) (n : Z) : bool :=
  match toNumber v with Some a => (a <? n)%Z | None => false end.

Definition js_gt (v : value) (n : Z) : bool :=
  match toNumber v with Some a => (n <? a)%Z | None => false end.

(** [a > b] between the numeric readings of two values. *)
Definition js_gtv (a b : value) : bool :=
  match toNumber b with Some n => js_gt a n | None => false end.

(** [Object.assign(target, source)]: the properties of [source] overwrite
    those of [target]. *)
Definition assign (target source : obj) : obj := source ∪ target.

(** What [JSON.parse] makes of a response body: [null], an object, or
    something else (a number, a string, a boolean, an array), which has none
    of the named properties the sources read. *)
Inductive json :=
| JNull
| JObj (o : obj)
| JOther.

Global Instance json_eq_dec : EqDecision json.
Proof. solve_decision. Defined.

(** The object a body is read as by [body[key]]; reading a property of
    [null] throws. *)
Definition props (body : json) : option obj :=
  match body with
  | JNull => None
  | JObj o => Some o
  | JOther => Some ∅
  end.

(** ** Promises *)

(** What a promise is rejected with in these sources: nothing ([reject()]),
    a message string, the failed response that [makeRequest] hands over, or
    an error of a collaborator (store or foreign authenticator). *)
Inductive failure :=
| ServerError (responseJSON : json)
| Unparsable (responseText : string)
| NetworkError.

Inductive rejection :=
| NoReason
| Message (s : string)
| Response (r : failure)
| Foreign (e : value).

Inductive outcome (A : Type) :=
| Resolved (a : A)
| Rejected (e : rejection).
Arguments Resolved {A} a.
Arguments Rejected {A} e.

Global Instance failure_eq_dec : EqDecision failure.
Proof. solve_decision. Defined.

Global Instance rejection_eq_dec : EqDecision rejection.
Proof. solve_decision. Defined.

Global Instance outcome_eq_dec {A} `{EqDecision A} : EqDecision (outcome A).
Proof. solve_decision. Defined.

(** The executor's view of [new Promise((resolve, reject) => ...)]: pending
    ([None]) until the first call of [resolve] or [reject]; later calls are
    ignored. *)
Definition promise (A : Type) := option (outcome A).

Definition resolve {A} (a : A) (p : promise A) : promise A :=
  match p with None => Some (Resolved a) | Some _ => p end.

Definition reject {A} (e : rejection) (p : promise A) : promise A :=
  match p with None => Some (Rejected e) | Some _ => p end.

(** ** The OAuth2 password-grant authenticator *)

Module OAuth2PasswordGrant.

Local Open Scope Z_scope.

Record config := {
  clientId : value;
  serverTokenEndpoint : value;
  serverTokenRevocationEndpoint : value;
  refreshAccessTokens : bool;
  refreshAccessTokensWithScope : bool;
}.

Definition defaults : config := {|
  clientId := VNull;
  serverTokenEndpoint := VStr "/token";
  serverTokenRevocationEndpoint := VNull;
  refreshAccessTokens := true;
  refreshAccessTokensWithScope := false;
|}.

(** [isFastBoot(getOwner(this))] and [isTesting()]. *)
Record runtime := {
  isFastBoot : bool;
  isTesting : bool;
}.

(** [get tokenRefreshOffset()]: [roll] stands for
    [Math.floor(Math.random() * (max - min))], a number in 0..4. *)
Definition tokenRefreshOffset (roll : nat) : Z :=
  (Z.of_nat (roll mod 5) + 5) * 1000.

(** A run-loop timer created by [later(this, this._refreshAccessToken,
    expiresIn, refreshToken, delay)]. *)
Record timer := {
  timer_id : nat;
  timer_expiresIn : value;
  timer_refreshToken : value;
  timer_delay : value;
}.

(** A form-encoded POST: the URL and the data pairs in key order. *)
Record request := {
  req_url : value;
  req_data : list (string * value);
}.

Record state := {
  _refreshTokenTimeout : option nat;  (* the handle kept on the authenticator *)
  timers : list timer;                (* timers pending in the run loop *)
  next_timer : nat;                   (* the next handle [later] returns *)
  requests : list request;            (* POSTs issued, oldest first *)
  sessionDataUpdated : list obj;      (* payloads of the triggered events *)
}.

Global Instance timer_eq_dec : EqDecision timer.
Proof. solve_decision. Defined.

Global Instance request_eq_dec : EqDecision request.
Proof. solve_decision. Defined.

Global Instance state_eq_dec : EqDecision state.
Proof. solve_decision. Defined.

Definition initial : state := {|
  _refreshTokenTimeout := None;
  timers := [];
  next_timer := 0%nat;
  requests := [];
  sessionDataUpdated := [];
|}.

(** [cancel(handle)] of the run loop; cancelling nothing, or a timer that is
    no longer pending, changes nothing. *)
Definition cancel (h : option nat) (ts : list timer) : list timer :=
  match h with
  | None => ts
  | Some i => filter (λ t, timer_id t ≠ i) ts
  end.

(** [cancel(this._refreshTokenTimeout); delete this._refreshTokenTimeout;] *)
Definition cancel_refresh (st : state) : state := {|
  _refreshTokenTimeout := None;
  timers := cancel (_refreshTokenTimeout st) (timers st);
  next_timer := next_timer st;
  requests := requests st;
  sessionDataUpdated := sessionDataUpdated st;
|}.

(** [this._refreshTokenTimeout = later(this, this._refreshAccessToken, ...)] *)
Definition later (expiresIn refreshToken delay : value) (st : state) : state := {|
  _refreshTokenTimeout := Some (next_timer st);
  timers := timers st ++ [ {| timer_id := next_timer st;
                              timer_expiresIn := expiresIn;
                              timer_refreshToken := refreshToken;
                              timer_delay := delay |} ];
  next_timer := S (next_timer st);
  requests := requests st;
  sessionDataUpdated := sessionDataUpdated st;
|}.

Definition _validate (data : obj) : bool :=
  negb (isEmpty (get data "access_token")).

(** [new Date(now + expiresIn * 1000).getTime()] *)
Definition dateAfter (now : Z) (expiresIn : value) : value :=
  ofNumber (n ← toNumber expiresIn; timeClip (now + n * 1000)).

Definition _absolutizeExpirationTime (now : Z) (expiresIn : value) : value :=
  if negb (isEmpty expiresIn) then dateAfter now expiresIn else VUndef.

(** The expiry [_scheduleAccessTokenRefresh] works with after its first
    [if]: the given one, or the one derived from [expiresIn]. *)
Definition effectiveExpiresAt (now : Z) (expiresIn expiresAt : value) : value :=
  if isEmpty expiresAt && negb (isEmpty expiresIn)
  then dateAfter now expiresIn
  else expiresAt.

Definition _scheduleAccessTokenRefresh (cfg : config) (rt : runtime)
    (now : Z) (roll : nat) (expiresIn expiresAt refreshToken : value)
    (st : state) : state :=
  let refreshAccessTokens := refreshAccessTokens cfg && negb (isFastBoot rt) in
  if refreshAccessTokens then
    let expiresAt := effectiveExpiresAt now expiresIn expiresAt in
    let offset := tokenRefreshOffset roll in
    if negb (isEmpty refreshToken) && negb (isEmpty expiresAt)
       && js_gt expiresAt (now - offset)
    then
      let st := cancel_refresh st in
      if negb (isTesting rt) then
        later expiresIn refreshToken
              (ofNumber (a ← toNumber expiresAt; Some (a - now - offset))) st
      else st
    else st
  else st.

(** [makeRequest(url, data)]: the POST that is issued. The reply is the
    environment's: the parsed JSON body when the response is ok, otherwise
    the failed response. *)
Definition makeRequest (cfg : config) (url : value)
    (data : list (string * value)) (st : state) : state := {|
  _refreshTokenTimeout := _refreshTokenTimeout st;
  timers := timers st;
  next_timer := next_timer st;
  requests := requests st ++
    [ {| req_url := url;
         req_data := if negb (isEmpty (clientId cfg))
                     then data ++ [("client_id", clientId cfg)]
                     else data |} ];
  sessionDataUpdated := sessionDataUpdated st;
|}.

Definition trigger_sessionDataUpdated (data : obj) (st : state) : state := {|
  _refreshTokenTimeout := _refreshTokenTimeout st;
  timers := timers st;
  next_timer := next_timer st;
  requests := requests st;
  sessionDataUpdated := sessionDataUpdated st ++ [data];
|}.

(** The reply of the server to one [makeRequest]: the parsed body, or the
    failed response. *)
Definition reply := outcome json.

(** *** authenticate *)

(** The synchronous part of [authenticate]: build the form and post it. *)
Definition authenticate_post (cfg : config) (identification password : value)
    (scope : list string) (st : state) : state :=
  let data := [("grant_type", VStr "password");
               ("username", identification);
               ("password", password)] in
  let scopesString := String.concat " " scope in
  let data := if negb (isEmpty (VStr scopesString))
              then data ++ [("scope", VStr scopesString)]
              else data in
  makeRequest cfg (serverTokenEndpoint cfg) data st.

(** The fulfilment callback of [authenticate] on a body whose properties
    can be read. It returns the promise, the response object as the
    callback leaves it ([Object.assign] writes into the object the server
    reply was parsed to) and the authenticator's state. The clock is read
    twice: [now] by [_absolutizeExpirationTime], [now2] by
    [_scheduleAccessTokenRefresh]. *)
Definition authenticate_fulfilled (cfg : config) (rt : runtime)
    (now now2 : Z) (roll : nat) (response : obj) (st : state)
    : promise obj * obj * state :=
  let p : promise obj := None in
  let p := if negb (_validate response)
           then reject (Message "access_token is missing in server response") p
           else p in
  let expiresAt := _absolutizeExpirationTime now (get response "expires_in") in
  let st := _scheduleAccessTokenRefresh cfg rt now2 roll
              (get response "expires_in") expiresAt
              (get response "refresh_token") st in
  let response := if negb (isEmpty expiresAt)
                  then assign response {[ "expires_at" := expiresAt ]}
                  else response in
  (resolve response p, response, st).

(** The rejection callback of [authenticate]. *)
Definition authenticate_rejected (r : rejection) : promise obj :=
  reject r None.

(** The fulfilment callback on any body: on [null] the first property
    read ([_validate]) throws, neither [resolve] nor [reject] is called and
    the promise stays pending. *)
Definition authenticate_body (cfg : config) (rt : runtime)
    (now now2 : Z) (roll : nat) (body : json) (st : state)
    : promise obj * state :=
  match props body with
  | Some response =>
      let '(p, _, st) := authenticate_fulfilled cfg rt now now2 roll response st in
      (p, st)
  | None => (None, st)
  end.

Definition authenticate (cfg : config) (rt : runtime)
    (identification password : value) (scope : list string)
    (now now2 : Z) (roll : nat) (server : reply) (st : state)
    : promise obj * state :=
  let st := authenticate_post cfg identification password scope st in
  match server with
  | Resolved body => authenticate_body cfg rt now now2 roll body st
  | Rejected r => (authenticate_rejected r, st)
  end.

(** *** _refreshAccessToken *)

Definition refresh_post (cfg : config) (refreshToken scope : value)
    (st : state) : state :=
  let data := [("grant_type", VStr "refresh_token");
               ("refresh_token", refreshToken)] in
  let data := if refreshAccessTokensWithScope cfg && negb (isEmpty scope)
              then data ++ [("scope", scope)]
              else data in
  makeRequest cfg (serverTokenEndpoint cfg) data st.

(** The fulfilment callback on a body whose properties can be read: server
    values win when truthy, the expiry is recomputed, the next refresh is
    scheduled and the event is triggered. The clock is read twice: [now]
    by [_absolutizeExpirationTime], [now2] by
    [_scheduleAccessTokenRefresh]. For a body that is not an object,
    [Object.assign] returns its wrapper object; of that only the assigned
    properties are kept here. *)
Definition refresh_fulfilled (cfg : config) (rt : runtime)
    (now now2 : Z) (roll : nat) (expiresIn refreshToken scope : value)
    (response : obj) (st : state) : promise obj * state :=
  let expiresIn := js_or (get response "expires_in") expiresIn in
  let refreshToken := js_or (get response "refresh_token") refreshToken in
  let scope := js_or (get response "scope") scope in
  let expiresAt := _absolutizeExpirationTime now expiresIn in
  let data := assign response
                (<["expires_in" := expiresIn]>
                   (<["expires_at" := expiresAt]>
                      (<["refresh_token" := refreshToken]> ∅))) in
  let data := if refreshAccessTokensWithScope cfg && negb (isEmpty scope)
              then <["scope" := scope]> data
              else data in
  let st := _scheduleAccessTokenRefresh cfg rt now2 roll
              expiresIn VNull refreshToken st in
  let st := trigger_sessionDataUpdated data st in
  (resolve data None, st).

(** [now], [now2] and [roll] are the clock readings and the offset draw at
    the time the reply is handled. On a [null] body the first property
    read throws and the promise stays pending. *)
Definition _refreshAccessToken (cfg : config) (rt : runtime)
    (expiresIn refreshToken scope : value)
    (now now2 : Z) (roll : nat) (server : reply) (st : state)
    : promise obj * state :=
  let st := refresh_post cfg refreshToken scope st in
  match server with
  | Resolved body =>
      match props body with
      | Some response =>
          refresh_fulfilled cfg rt now now2 roll expiresIn refreshToken scope
            response st
      | None => (None, st)
      end
  | Rejected _ => (reject NoReason None, st)
  end.

(** *** restore *)

(** [data.expires_at] is set and already in the past at [now]. *)
Definition expired (data : obj) (now : Z) : bool :=
  negb (isEmpty (get data "expires_at")) && js_lt (get data "expires_at") now.

(** [now]: the clock when [restore] runs; [now2], [roll]: the clock and the
    draw inside its [_scheduleAccessTokenRefresh]; [now'], [now2'],
    [roll']: those at the time the reply to the refresh request is handled
    (used on that path only). *)
Definition restore (cfg : config) (rt : runtime) (data : obj)
    (now now2 : Z) (roll : nat) (server : reply) (now' now2' : Z) (roll' : nat)
    (st : state) : promise obj * state :=
  if expired data now then
    if refreshAccessTokens cfg then
      _refreshAccessToken cfg rt (get data "expires_in")
        (get data "refresh_token") (get data "scope") now' now2' roll' server st
    else (reject NoReason None, st)
  else
    if negb (_validate data) then (reject NoReason None, st)
    else
      let st := _scheduleAccessTokenRefresh cfg rt now2 roll
                  (get data "expires_in") (get data "expires_at")
                  (get data "refresh_token") st in
      (resolve data None, st).

(** *** invalidate *)

(** The form of the revocation request for one token type, if that token is
    present. *)
Definition revocation_form (data : obj) (tokenType : string)
    : list (list (string * value)) :=
  let token := get data tokenType in
  if negb (isEmpty token)
  then [[("token_type_hint", VStr tokenType); ("token", token)]]
  else [].

Definition revocation_forms (data : obj) : list (list (string * value)) :=
  revocation_form data "access_token" ++ revocation_form data "refresh_token".

(** Requests settle at logical instants chosen by the environment.
    [Promise.all] is fulfilled once every input is (at the latest instant,
    0 for no input) and rejected as soon as one input is (at the earliest
    rejection). The result is the instant and whether it was fulfilled. *)
Definition is_rejected {A} (o : outcome A) : bool :=
  match o with Rejected _ => true | Resolved _ => false end.

Definition promise_all {A} (rs : list (nat * outcome A)) : nat * bool :=
  match filter (λ r, is_rejected (snd r) = true) rs with
  | [] => (foldr Nat.max 0%nat (fst <$> rs), true)
  | r :: rej => (foldr Nat.min (fst r) (fst <$> rej), false)
  end.

(** [server i] is the instant and the reply of the [i]-th revocation
    request. The result carries the instant at which the promise is
    resolved. *)
Definition invalidate (cfg : config) (data : obj)
    (server : nat → nat * reply) (st : state)
    : nat * promise () * state :=
  let serverTokenRevocationEndpoint := serverTokenRevocationEndpoint cfg in
  if isEmpty serverTokenRevocationEndpoint then
    (0%nat, resolve () None, cancel_refresh st)
  else
    let forms := revocation_forms data in
    let st := foldl (λ st form,
                makeRequest cfg serverTokenRevocationEndpoint form st) st forms in
    let settled := imap (λ i _, server i) forms in
    (fst (promise_all settled), resolve () None, cancel_refresh st).

(** *** The authenticator over time *)

(** The run loop fires a pending timer: it leaves the pending set ... *)
Definition timer_fires (t : timer) (st : state) : state := {|
  _refreshTokenTimeout := _refreshTokenTimeout st;
  timers := filter (λ u, timer_id u ≠ timer_id t) (timers st);
  next_timer := next_timer st;
  requests := requests st;
  sessionDataUpdated := sessionDataUpdated st;
|}.

(** ... and [_refreshAccessToken(expiresIn, refreshToken)] runs. *)
Definition fire (cfg : config) (rt : runtime) (t : timer)
    (now now2 : Z) (roll : nat) (server : reply) (st : state) : state :=
  snd (_refreshAccessToken cfg rt (timer_expiresIn t) (timer_refreshToken t)
         VUndef now now2 roll server (timer_fires t st)).

(** One step of the authenticator. The first four are the operations run
    from the call to the handling of the reply. Replies arrive
    asynchronously, so other steps can come between a request and its
    callback; the remaining steps are those pieces on their own: a request
    goes out, a timer leaves the run loop, a success callback of
    [authenticate] or of [_refreshAccessToken] runs, the revocations of
    [invalidate] have settled. *)
Inductive step (cfg : config) (rt : runtime) : state → state → Prop :=
| step_authenticate identification password scope now now2 roll server st :
    step cfg rt st
      (snd (authenticate cfg rt identification password scope now now2 roll
              server st))
| step_restore data now now2 roll server now' now2' roll' st :
    step cfg rt st
      (snd (restore cfg rt data now now2 roll server now' now2' roll' st))
| step_invalidate data server st :
    step cfg rt st (snd (invalidate cfg data server st))
| step_fire t now now2 roll server st :
    t ∈ timers st →
    step cfg rt st (fire cfg rt t now now2 roll server st)
| step_request url data st :
    step cfg rt st (makeRequest cfg url data st)
| step_timer_fires t st :
    t ∈ timers st →
    step cfg rt st (timer_fires t st)
| step_authenticate_fulfilled now now2 roll response st :
    step cfg rt st
      (snd (authenticate_fulfilled cfg rt now now2 roll response st))
| step_refresh_fulfilled now now2 roll expiresIn refreshToken scope response st :
    step cfg rt st
      (snd (refresh_fulfilled cfg rt now now2 roll expiresIn refreshToken scope
              response st))
| step_revocations_settled st :
    step cfg rt st (cancel_refresh st).

Inductive reachable (cfg : config) (rt : runtime) : state → Prop :=
| reachable_initial : reachable cfg rt initial
| reachable_step st st' :
    reachable cfg rt st → step cfg rt st st' → reachable cfg rt st'.

End OAuth2PasswordGrant.


(** ** The internal session *)

Module InternalSession.

(** The session's [content]: an object with the reserved key
    [authenticated] (the authenticator's data; the key may be missing in a
    snapshot that comes from the store) and the keys the application set. *)
Record snapshot := {
  authenticated : option obj;
  custom : obj;
}.

Global Instance snapshot_eq_dec : EqDecision snapshot.
Proof. solve_decision. Defined.

Inductive event :=
| authenticationSucceeded
| invalidationSucceeded
| sessionInvalidationFailed (error : rejection).

(** What a run of session code does to its collaborators, in order. *)
Inductive effect :=
| Call (authenticatorName : value) (method : string) (data : option obj)
| On (authenticatorName : value)    (* authenticator.on(...) *)
| Off (authenticatorName : value)   (* authenticator.off(...) *)
| StoreRestore                      (* store.restore() *)
| Persist (data : snapshot)         (* store.persist(data) *)
| Trigger (e : event).              (* this.trigger(e) *)

Global Instance event_eq_dec : EqDecision event.
Proof. solve_decision. Defined.

Global Instance effect_eq_dec : EqDecision effect.
Proof. solve_decision. Defined.

(** Modelled from the spec: the Store collaborator is not part of these
    sources. [persisted] is the snapshot it holds: [persist(data)] replaces
    it when the environment lets the write succeed. *)
Record session := {
  authenticator : value;
  isAuthenticated : bool;
  attemptedTransition : option nat;   (* an opaque handle, or null *)
  content : snapshot;
  _busy : bool;
  persisted : snapshot;
}.

Global Instance session_eq_dec : EqDecision session.
Proof. solve_decision. Defined.

(** The state [init] leaves. *)
Definition init (stored : snapshot) : session := {|
  authenticator := VNull;
  isAuthenticated := false;
  attemptedTransition := None;
  content := {| authenticated := Some ∅; custom := ∅ |};
  _busy := false;
  persisted := stored;
|}.

(** Session code: it reads and writes the session and leaves effects. *)
Definition M (A : Type) : Type := session → A * session * list effect.

Global Instance M_ret : MRet M := λ A a s, (a, s, []).

Global Instance M_bind : MBind M := λ A B f m s,
  let '(a, s1, e1) := m s in
  let '(b, s2, e2) := f a s1 in
  (b, s2, e1 ++ e2).

Definition this : M session := λ s, (s, s, []).

Definition emit (e : effect) : M () := λ s, ((), s, [e]).

Definition set_busy (b : bool) : M () := λ s,
  ((), {| authenticator := authenticator s;
          isAuthenticated := isAuthenticated s;
          attemptedTransition := attemptedTransition s;
          content := content s;
          _busy := b;
          persisted := persisted s |}, []).

Definition set_attemptedTransition (t : option nat) : M () := λ s,
  ((), {| authenticator := authenticator s;
          isAuthenticated := isAuthenticated s;
          attemptedTransition := t;
          content := content s;
          _busy := _busy s;
          persisted := persisted s |}, []).

Definition set_content (c : snapshot) : M () := λ s,
  ((), {| authenticator := authenticator s;
          isAuthenticated := isAuthenticated s;
          attemptedTransition := attemptedTransition s;
          content := c;
          _busy := _busy s;
          persisted := persisted s |}, []).

(** [this.setProperties({ isAuthenticated, authenticator,
    'content.authenticated': ... })] *)
Definition setProperties (isAuth : bool) (name : value)
    (authenticatedContent : obj) : M () := λ s,
  ((), {| authenticator := name;
          isAuthenticated := isAuth;
          attemptedTransition := attemptedTransition s;
          content := {| authenticated := Some authenticatedContent;
                        custom := custom (content s) |};
          _busy := _busy s;
          persisted := persisted s |}, []).

(** [this.store.persist(data)], settled by the environment with [reply]. *)
Definition store_persist (data : snapshot) (reply : outcome ())
    : M (outcome ()) := λ s,
  (reply,
   {| authenticator := authenticator s;
      isAuthenticated := isAuthenticated s;
      attemptedTransition := attemptedTransition s;
      content := content s;
      _busy := _busy s;
      persisted := match reply with
                   | Resolved _ => data
                   | Rejected _ => persisted s
                   end |},
   [Persist data]).

(** [data] is [this.content] itself: the [set] writes the merged object
    into the session's content before the store sees it. *)
Definition _updateStore (persist : outcome ()) : M (outcome ()) :=
  s ← this;
  let data := content s in
  let data :=
    if negb (isEmpty (authenticator s)) then
      {| authenticated :=
           Some (assign {[ "authenticator" := authenticator s ]}
                        (default ∅ (authenticated data)));
         custom := custom data |}
    else data in
  set_content data;;
  store_persist data persist.

Definition _bindToAuthenticatorEvents : M () :=
  s ← this;
  emit (On (authenticator s)).

(** [trigger] is [false] where the source omits the argument. Both
    callbacks of [then] return nothing: the promise of [_setup] is
    fulfilled whether or not the store took the data. *)
Definition _setup (authenticator : value) (authenticatedContent : obj)
    (trigger : bool) (persist : outcome ()) : M (outcome ()) :=
  s ← this;
  let trigger := trigger && negb (isAuthenticated s) in
  setProperties true authenticator authenticatedContent;;
  _bindToAuthenticatorEvents;;
  r ← _updateStore persist;
  match r with
  | Resolved _ =>
      (if trigger then emit (Trigger authenticationSucceeded) else mret ());;
      mret (Resolved ())
  | Rejected _ =>
      setProperties false VNull ∅;;
      mret (Resolved ())
  end.

(** [then] has one callback here: a failed write passes through. *)
Definition _clear (trigger : bool) (persist : outcome ()) : M (outcome ()) :=
  s ← this;
  let trigger := trigger && isAuthenticated s in
  setProperties false VNull ∅;;
  r ← _updateStore persist;
  match r with
  | Resolved _ =>
      (if trigger then emit (Trigger invalidationSucceeded) else mret ());;
      mret (Resolved ())
  | Rejected e => mret (Rejected e)
  end.

Definition _clearWithContent (content : snapshot) (trigger : bool)
    (persist : outcome ()) : M (outcome ()) :=
  set_content content;;
  _clear trigger persist.

(** [let { authenticator: authenticatorFactory } = c.authenticated || {}] *)
Definition authenticatorFactory (c : snapshot) : value :=
  get (default ∅ (authenticated c)) "authenticator".

(** [delete c.authenticated.authenticator] *)
Definition delete_authenticator (c : snapshot) : snapshot :=
  {| authenticated := delete "authenticator" <$> authenticated c;
     custom := custom c |}.

(** [delete c.authenticated] *)
Definition delete_authenticated (c : snapshot) : snapshot :=
  {| authenticated := None; custom := custom c |}.

(** The synchronous start of [authenticate]: up to the call of the
    authenticator. [_lookupAuthenticator] is taken to find it. *)
Definition authenticate_begin (authenticatorFactory : value) : M () :=
  set_busy true;;
  emit (Call authenticatorFactory "authenticate" None).

(** The two callbacks of [authenticate]. *)
Definition authenticate_settled (authenticatorFactory : value)
    (reply : outcome obj) (persist : outcome ()) : M (outcome ()) :=
  match reply with
  | Resolved content =>
      set_busy false;;
      _setup authenticatorFactory content true persist
  | Rejected error =>
      set_busy false;;
      _clear false persist;;
      mret (Rejected error)
  end.

(** [reply] settles the authenticator's promise, [persist] the store's. *)
Definition authenticate (authenticatorFactory : value)
    (reply : outcome obj) (persist : outcome ()) : M (outcome ()) :=
  authenticate_begin authenticatorFactory;;
  authenticate_settled authenticatorFactory reply persist.

Definition invalidate (reply : outcome ()) (persist : outcome ())
    : M (outcome ()) :=
  set_busy true;;
  set_attemptedTransition None;;
  s ← this;
  if negb (isAuthenticated s) then
    set_busy false;;
    mret (Resolved ())
  else
    emit (Call (authenticator s) "invalidate" (authenticated (content s)));;
    match reply with
    | Resolved _ =>
        emit (Off (authenticator s));;
        set_busy false;;
        _clear true persist
    | Rejected error =>
        emit (Trigger (sessionInvalidationFailed error));;
        set_busy false;;
        mret (Rejected error)
    end.

(** [stored] settles [store.restore()], [reply] the authenticator's
    [restore], [persist] the write that follows. *)
Definition restore (stored : outcome snapshot) (reply : outcome obj)
    (persist : outcome ()) : M (outcome ()) :=
  set_busy true;;
  emit StoreRestore;;
  match stored with
  | Resolved restoredContent =>
      let name := authenticatorFactory restoredContent in
      if truthy name then
        let restoredContent := delete_authenticator restoredContent in
        emit (Call name "restore" (authenticated restoredContent));;
        match reply with
        | Resolved content =>
            set_content restoredContent;;
            set_busy false;;
            _setup name content false persist
        | Rejected _ =>
            set_busy false;;
            _clearWithContent restoredContent false persist;;
            mret (Rejected NoReason)
        end
      else
        let restoredContent := delete_authenticated restoredContent in
        set_busy false;;
        _clearWithContent restoredContent false persist;;
        mret (Rejected NoReason)
  | Rejected _ =>
      set_busy false;;
      _clear false persist;;
      mret (Rejected NoReason)
  end.

(** [key] must not be ["authenticated"] (the assertion); keys that start
    with an underscore are not persisted. *)
Definition setUnknownProperty (key : string) (v : value)
    (persist : outcome ()) : M () :=
  s ← this;
  set_content {| authenticated := authenticated (content s);
                 custom := <[key := v]> (custom (content s)) |};;
  if negb (String.prefix "_" key) then
    _updateStore persist;; mret ()
  else mret ().

Definition _onSessionDataUpdated (content : obj) (persist : outcome ())
    : M () :=
  s ← this;
  _setup (authenticator s) content false persist;;
  mret ().

Definition _onSessionDataInvalidated (persist : outcome ()) : M () :=
  _clear true persist;;
  mret ().

(** The handler [_bindToStoreEvents] registers for the store's
    [sessionDataUpdated]. *)
Definition onStoreSessionDataUpdated (content : snapshot)
    (reply : outcome obj) (persist : outcome ()) : M () :=
  s ← this;
  if negb (_busy s) then
    set_busy true;;
    let name := authenticatorFactory content in
    if truthy name then
      let content := delete_authenticator content in
      emit (Call name "restore" (authenticated content));;
      match reply with
      | Resolved authenticatedContent =>
          set_content content;;
          set_busy false;;
          _setup name authenticatedContent true persist;;
          mret ()
      | Rejected _ =>
          set_busy false;;
          _clearWithContent content true persist;;
          mret ()
      end
    else
      set_busy false;;
      _clearWithContent content true persist;;
      mret ()
  else mret ().

(** Everything that can happen to a session: the calls of the service
    layer and the notifications of the bound authenticator and of the
    store, each with the replies of the collaborators it waits for. *)
Inductive operation :=
| Authenticate (authenticatorFactory : value) (reply : outcome obj)
    (persist : outcome ())
| Invalidate (reply : outcome ()) (persist : outcome ())
| Restore (stored : outcome snapshot) (reply : outcome obj)
    (persist : outcome ())
| SetUnknownProperty (key : string) (v : value) (persist : outcome ())
| AuthenticatorDataUpdated (content : obj) (persist : outcome ())
| AuthenticatorDataInvalidated (persist : outcome ())
| StoreDataUpdated (content : snapshot) (reply : outcome obj)
    (persist : outcome ()).

Definition run (op : operation) (s : session) : session * list effect :=
  match op with
  | Authenticate name reply persist =>
      let '(_, s, e) := authenticate name reply persist s in (s, e)
  | Invalidate reply persist =>
      let '(_, s, e) := invalidate reply persist s in (s, e)
  | Restore stored reply persist =>
      let '(_, s, e) := restore stored reply persist s in (s, e)
  | SetUnknownProperty key v persist =>
      let '(_, s, e) := setUnknownProperty key v persist s in (s, e)
  | AuthenticatorDataUpdated content persist =>
      let '(_, s, e) := _onSessionDataUpdated content persist s in (s, e)
  | AuthenticatorDataInvalidated persist =>
      let '(_, s, e) := _onSessionDataInvalidated persist s in (s, e)
  | StoreDataUpdated content reply persist =>
      let '(_, s, e) := onStoreSessionDataUpdated content reply persist s in (s, e)
  end.

(** The events among the effects of a run. *)
Definition triggered (es : list effect) : list event :=
  omap (λ e, match e with Trigger ev => Some ev | _ => None end) es.

(** The snapshots handed to [store.persist] in a run. *)
Definition persists (es : list effect) : list snapshot :=
  omap (λ e, match e with Persist d => Some d | _ => None end) es.

End InternalSession.

(** ** The promise of makeRequest *)

Module OAuth2Transport.
Import OAuth2PasswordGrant.

(** What [fetch(url, options)] delivers: it fails, or it yields a response
    with its [ok] flag whose body is then read as text (reading the body
    is taken to succeed). *)
Inductive fetched :=
| FetchFailed
| Fetched (ok : bool) (text : string).

Section Parse.

(** [JSON.parse]: [None] when it throws. *)
Variable parse : string → option json.

(** The executor of the promise [makeRequest] returns: a body that parses
    resolves the promise when the response is ok and rejects it with the
    response (carrying [responseJSON]) otherwise; a body that does not
    parse rejects it with the response carrying [responseText]; a failed
    fetch rejects it. *)
Definition makeRequest_settled (f : fetched) : reply :=
  match f with
  | FetchFailed => Rejected (Response NetworkError)
  | Fetched ok text =>
      match parse text with
      | Some json =>
          if negb ok then Rejected (Response (ServerError json))
          else Resolved json
      | None => Rejected (Response (Unparsable text))
      end
  end.

(** [authenticate] with the reply produced by [makeRequest] itself. *)
Definition authenticate_fetch (cfg : config) (rt : runtime)
    (identification password : value) (scope : list string)
    (now now2 : Z) (roll : nat) (f : fetched) (st : state)
    : promise obj * state :=
  authenticate cfg rt identification password scope now now2 roll
    (makeRequest_settled f) st.

End Parse.

End OAuth2Transport.

(** ** The authenticator: statements under test and concrete runs *)

Module OAuth2Statements.
Import OAuth2PasswordGrant.

Local Open Scope Z_scope.

(** A browser run: neither FastBoot nor a test build. *)
Definition browser : runtime := {| isFastBoot := false; isTesting := false |}.

(** *** authenticate on a response without access token *)

(** The sentence of the specification, read on the fulfilment callback: the
    promise fails with the raw response and nothing else happens. *)
Definition invalid_response_only_rejects (cfg : config) (rt : runtime)
    (now now2 : Z) (roll : nat) (response : obj) (st : state) : Prop :=
  _validate response = false →
  let '(p, response', st') :=
    authenticate_fulfilled cfg rt now now2 roll response st in
  (∃ r, p = Some (Rejected (Response r))) ∧ response' = response ∧ st' = st.

(** A success reply that lacks the access token but has an expiry and a
    refresh token. *)
Definition tokenless : obj :=
  <["expires_in" := VNum 3600]> (<["refresh_token" := VStr "RT1"]> ∅).

(** *** restore *)

(** The [expires_in] that the refresh callback works with: the server's
    when truthy, else the stored one. *)
Definition expiresInForce (server : reply) (data : obj) : value :=
  match server with
  | Resolved body =>
      match props body with
      | Some response =>
          js_or (get response "expires_in") (get data "expires_in")
      | None => VUndef
      end
  | Rejected _ => VUndef
  end.

(** The four cases of [restore] as the specification has them; the second
    conjunct of the first case is the promised growth of [expires_at]. *)
Definition restore_as_specified (cfg : config) (rt : runtime) (data : obj)
    (now now2 : Z) (roll : nat) (server : reply) (now' now2' : Z) (roll' : nat)
    (st : state) : Prop :=
  let r := restore cfg rt data now now2 roll server now' now2' roll' st in
  (expired data now = true → refreshAccessTokens cfg = true →
     r = _refreshAccessToken cfg rt (get data "expires_in")
           (get data "refresh_token") (get data "scope") now' now2' roll'
           server st
     ∧ ∀ data', fst r = Some (Resolved data') →
         js_gtv (get data' "expires_at") (get data "expires_at") = true)
  ∧ (expired data now = true → refreshAccessTokens cfg = false →
       ∃ e, fst r = Some (Rejected e))
  ∧ (expired data now = false → _validate data = true →
       fst r = Some (Resolved data)
       ∧ snd r = _scheduleAccessTokenRefresh cfg rt now2 roll
                   (get data "expires_in") (get data "expires_at")
                   (get data "refresh_token") st)
  ∧ (expired data now = false → _validate data = false →
       ∃ e, fst r = Some (Rejected e)).

(** A snapshot whose token expired at 1000 and that records no
    [expires_in], and a refresh reply that names no expiry either. *)
Definition stale_snapshot : obj :=
  <["access_token" := VStr "AT1"]>
    (<["refresh_token" := VStr "RT1"]> (<["expires_at" := VNum 1000]> ∅)).

Definition renewed : obj := <["access_token" := VStr "AT2"]> ∅.

(** A snapshot as [authenticate] leaves it, expired, and a full reply. *)
Definition expired_snapshot : obj :=
  <["access_token" := VStr "AT1"]>
    (<["refresh_token" := VStr "RT1"]>
       (<["expires_in" := VNum 3600]> (<["expires_at" := VNum 1000]> ∅))).

Definition renewed_full : obj :=
  <["access_token" := VStr "AT2"]> (<["expires_in" := VNum 7200]> ∅).

(** *** invalidate *)

(** The revocation POST the specification expects for one token type: none
    when the token is absent, else one tagged with [token_type_hint]. *)
Definition revocation_post (cfg : config) (data : obj) (tokenType : string)
    : list request :=
  if isEmpty (get data tokenType) then []
  else [ {| req_url := serverTokenRevocationEndpoint cfg;
            req_data := [("token_type_hint", VStr tokenType);
                         ("token", get data tokenType)]
                        ++ (if isEmpty (clientId cfg) then []
                            else [("client_id", clientId cfg)]) |} ].

Definition revocation_posts (cfg : config) (data : obj) : list request :=
  revocation_post cfg data "access_token"
  ++ revocation_post cfg data "refresh_token".

(** [invalidate] as the specification has it; the last conjunct is "resolves
    after all of them settle". *)
Definition invalidate_as_specified (cfg : config) (rt : runtime) (data : obj)
    (server : nat → nat * reply) (st : state) : Prop :=
  let r := invalidate cfg data server st in
  let posts := revocation_posts cfg data in
  reachable cfg rt st →
  (_refreshTokenTimeout r.2 = None ∧ timers r.2 = [])
  ∧ r.1.2 = Some (Resolved ())
  ∧ (isEmpty (serverTokenRevocationEndpoint cfg) = true →
       requests r.2 = requests st ∧ r.1.1 = 0%nat)
  ∧ (isEmpty (serverTokenRevocationEndpoint cfg) = false →
       requests r.2 = requests st ++ posts
       ∧ ∀ i, (i < length posts)%nat → (fst (server i) ≤ r.1.1)%nat).

Definition revoking : config := {|
  clientId := VNull;
  serverTokenEndpoint := VStr "/token";
  serverTokenRevocationEndpoint := VStr "/revoke";
  refreshAccessTokens := true;
  refreshAccessTokensWithScope := false;
|}.

Definition both_tokens : obj :=
  <["access_token" := VStr "AT1"]> (<["refresh_token" := VStr "RT1"]> ∅).

(** The revocation of the access token fails at instant 1, the one of the
    refresh token succeeds at instant 5. *)
Definition first_fails (i : nat) : nat * reply :=
  match i with
  | O => (1%nat, Rejected (Response NetworkError))
  | _ => (5%nat, Resolved (JObj ∅))
  end.

(** *** Refresh scheduling *)

(** A call of [_scheduleAccessTokenRefresh] created a timer. *)
Definition scheduled (st st' : state) : Prop := next_timer st' ≠ next_timer st.

(** The conditions the specification lists for a timer to be created; the
    last one compares the computed fire time with [now - offset]. *)
Definition schedule_as_specified (cfg : config) (rt : runtime)
    (now : Z) (roll : nat) (expiresIn expiresAt refreshToken : value)
    (st : state) : Prop :=
  let st' := _scheduleAccessTokenRefresh cfg rt now roll
               expiresIn expiresAt refreshToken st in
  let offset := tokenRefreshOffset roll in
  (scheduled st st' →
     refreshAccessTokens cfg = true ∧ isFastBoot rt = false
     ∧ isTesting rt = false
     ∧ isEmpty refreshToken = false
     ∧ (isEmpty expiresAt = false ∨ isEmpty expiresIn = false)
     ∧ ∃ e, toNumber (effectiveExpiresAt now expiresIn expiresAt) = Some e
            ∧ now - offset < e - now - offset)
  ∧ (reachable cfg rt st → (length (timers st') ≤ 1)%nat).

(** At most one timer is pending, and it is the one the authenticator holds
    the handle of. *)
Definition at_most_one (st : state) : Prop :=
  timers st = [] ∨
  ∃ t, timers st = [t] ∧ _refreshTokenTimeout st = Some (timer_id t).

(** The same snapshot with its numbers as strings, as a server or a store
    that serialises them so would leave it. *)
Definition expired_snapshot_strings : obj :=
  <["access_token" := VStr "AT1"]>
    (<["refresh_token" := VStr "RT1"]>
       (<["expires_in" := VStr "3600"]> (<["expires_at" := VStr "1000"]> ∅))).

(** What the refresh of [expired_snapshot] at instant 2500 resolves with. *)
Definition renewed_data : obj :=
  <["expires_in" := VNum 7200]>
    (<["expires_at" := VNum 7202500]>
       (<["refresh_token" := VStr "RT1"]> renewed_full)).

(** The reply of the specification's scenario for [authenticate]. *)
Definition granted : obj :=
  <["access_token" := VStr "AT1"]>
    (<["expires_in" := VNum 3600]> (<["refresh_token" := VStr "RT1"]> ∅)).

End OAuth2Statements.

(** ** The session: notions the statements need and concrete runs *)

Module SessionStatements.
Import InternalSession.

Definition is_authenticationSucceeded (e : event) : bool :=
  match e with authenticationSucceeded => true | _ => false end.

(** How often [authenticationSucceeded] was triggered in a run. *)
Definition successes (es : list effect) : nat :=
  length (List.filter is_authenticationSucceeded (triggered es)).

(** The calls made to authenticators in a run. *)
Definition calls (es : list effect) : list (value * string) :=
  omap (λ e, match e with Call a m _ => Some (a, m) | _ => None end) es.

(** The unauthenticated state of the three session fields. *)
Definition cleared (s : session) : Prop :=
  isAuthenticated s = false ∧ authenticator s = VNull
  ∧ authenticated (content s) = Some ∅.

(** A session authenticated by ["authenticator:oauth2"]. *)
Definition oauth2 : value := VStr "authenticator:oauth2".

Definition token_AT1 : obj := <["access_token" := VStr "AT1"]> ∅.

Definition signed_in : session := {|
  authenticator := oauth2;
  isAuthenticated := true;
  attemptedTransition := Some 7%nat;
  content := {| authenticated := Some (<["authenticator" := oauth2]> token_AT1);
                custom := ∅ |};
  _busy := false;
  persisted := {| authenticated := Some (<["authenticator" := oauth2]> token_AT1);
                  custom := ∅ |};
|}.

(** [signed_in] after a successful [invalidate]. *)
Definition signed_out_after : session := {|
  authenticator := VNull;
  isAuthenticated := false;
  attemptedTransition := None;
  content := {| authenticated := Some ∅; custom := ∅ |};
  _busy := false;
  persisted := {| authenticated := Some ∅; custom := ∅ |};
|}.

(** [signed_in] after an [invalidate] that the authenticator rejected. *)
Definition signed_in_after_refusal : session := {|
  authenticator := oauth2;
  isAuthenticated := true;
  attemptedTransition := None;
  content := {| authenticated := Some (<["authenticator" := oauth2]> token_AT1);
                custom := ∅ |};
  _busy := false;
  persisted := {| authenticated := Some (<["authenticator" := oauth2]> token_AT1);
                  custom := ∅ |};
|}.

(** A fresh session somebody tried to enter a protected route with. *)
Definition signed_out : session := {|
  authenticator := VNull;
  isAuthenticated := false;
  attemptedTransition := Some 7%nat;
  content := {| authenticated := Some ∅; custom := ∅ |};
  _busy := false;
  persisted := {| authenticated := Some ∅; custom := ∅ |};
|}.

(** "[attemptedTransition] is cleared on invalidation": a run that takes
    the session from authenticated to unauthenticated leaves no handle. *)
Definition handle_cleared_on_invalidation (op : operation) (s : session)
    : Prop :=
  isAuthenticated s = true → isAuthenticated (run op s).1 = false →
  attemptedTransition (run op s).1 = None.

(** What the store notifies after the user signed out in another tab. *)
Definition signed_out_elsewhere : snapshot :=
  {| authenticated := Some ∅; custom := ∅ |}.

(** [signed_in] after that notification: invalidated, the handle still
    there. *)
Definition signed_out_by_other_tab : session := {|
  authenticator := VNull;
  isAuthenticated := false;
  attemptedTransition := Some 7%nat;
  content := {| authenticated := Some ∅; custom := ∅ |};
  _busy := false;
  persisted := {| authenticated := Some ∅; custom := ∅ |};
|}.

(** The payload of the store notification of the specification's scenario. *)
Definition from_other_tab : snapshot := {|
  authenticated := Some (<["authenticator" := VStr "x"]>
                           (<["access_token" := VStr "AT2"]> ∅));
  custom := ∅;
|}.

Definition token_AT2 : obj := <["access_token" := VStr "AT2"]> ∅.

(** A session bound to [oauth2] whose authenticated data do not name the
    authenticator yet (the state [_setup] is in before it persists). *)
Definition bound : session := {|
  authenticator := oauth2;
  isAuthenticated := true;
  attemptedTransition := None;
  content := {| authenticated := Some token_AT1; custom := ∅ |};
  _busy := false;
  persisted := {| authenticated := Some ∅; custom := ∅ |};
|}.

(** A session in the middle of [authenticate]: the authenticator has been
    called and has not answered yet. *)
Definition authenticating : session :=
  (authenticate_begin oauth2 signed_out).1.2.

(** The content [_updateStore] persists for a session bound to [name]. *)
Definition merged (name : value) (c : snapshot) : snapshot :=
  if negb (isEmpty name) then
    {| authenticated :=
         Some (assign {[ "authenticator" := name ]}
                      (default ∅ (authenticated c)));
       custom := custom c |}
  else c.

End SessionStatements.

(** ** Further notions and concrete runs *)

Module OAuth2Notions.
Import OAuth2PasswordGrant OAuth2Statements.

Local Open Scope Z_scope.

(** The refresh token [_refreshAccessToken] goes on with: the server's when
    truthy, else the one it was called with. *)
Definition refreshTokenInForce (response : obj) (refreshToken : value) : value :=
  js_or (get response "refresh_token") refreshToken.

(** The timer [later] creates in state [st]. *)
Definition next_refresh (st : state) (expiresIn refreshToken : value)
    (delay : Z) : timer :=
  {| timer_id := next_timer st;
     timer_expiresIn := expiresIn;
     timer_refreshToken := refreshToken;
     timer_delay := VNum delay |}.

(** Automatic refresh is off for this configuration and runtime: disabled,
    or FastBoot, or a test build. *)
Definition refresh_off (cfg : config) (rt : runtime) : Prop :=
  refreshAccessTokens cfg = false ∨ isFastBoot rt = true ∨ isTesting rt = true.

(** A parser for three bodies: the scenario's grant, an error object and
    [null]. *)
Definition parse_sample (text : string) : option json :=
  if bool_decide (text = "grant") then Some (JObj granted)
  else if bool_decide (text = "error")
       then Some (JObj (<["error" := VStr "invalid_grant"]> ∅))
       else if bool_decide (text = "null") then Some JNull
            else None.

Definition test_build : runtime := {| isFastBoot := false; isTesting := true |}.

End OAuth2Notions.

Module SessionNotions.
Import InternalSession SessionStatements.

(** The two assertions of the source: [authenticate] is given a non-empty
    authenticator name, [setUnknownProperty] is not used on the reserved
    key. *)
Definition allowed (op : operation) : Prop :=
  match op with
  | Authenticate name _ _ => isEmpty name = false
  | SetUnknownProperty key _ _ => key ≠ "authenticated"
  | _ => True
  end.

(** The sessions an application can get to: [init], then operations. *)
Inductive reachable : session → Prop :=
| reachable_init stored : reachable (init stored)
| reachable_run op s : reachable s → allowed op → reachable (run op s).1.

(** The three calls of the service layer. *)
Definition service_call (op : operation) : bool :=
  match op with
  | Authenticate _ _ _ | Invalidate _ _ | Restore _ _ _ => true
  | _ => false
  end.

(** The reply the store gives to the write of an operation (if it
    writes). *)
Definition write_reply (op : operation) : outcome () :=
  match op with
  | Authenticate _ _ persist | Invalidate _ persist | Restore _ _ persist
  | SetUnknownProperty _ _ persist | AuthenticatorDataUpdated _ persist
  | AuthenticatorDataInvalidated persist | StoreDataUpdated _ _ persist =>
      persist
  end.

Definition is_invalidationSucceeded (e : event) : bool :=
  match e with invalidationSucceeded => true | _ => false end.

(** How often [invalidationSucceeded] was triggered in a run. *)
Definition invalidations (es : list effect) : nat :=
  length (List.filter is_invalidationSucceeded (triggered es)).

(** What holds of a session between operations: nobody is busy; a session
    that is not authenticated has no authenticator and empty authenticated
    content; an authenticated one has authenticated content, which names
    the authenticator under [authenticator] when one is bound. *)
Definition consistent (s : session) : Prop :=
  _busy s = false
  ∧ (isAuthenticated s = false → cleared s)
  ∧ (isAuthenticated s = true →
       ∃ a, authenticated (content s) = Some a
            ∧ (isEmpty (authenticator s) = false →
                 is_Some (a !! "authenticator"))).

(** A session with application data under the key ["theme"]. *)
Definition themed : session := {|
  authenticator := oauth2;
  isAuthenticated := true;
  attemptedTransition := None;
  content := {| authenticated := Some (<["authenticator" := oauth2]> token_AT1);
                custom := <["theme" := VStr "dark"]> ∅ |};
  _busy := false;
  persisted := {| authenticated := Some ∅; custom := ∅ |};
|}.

End SessionNotions.

(** ** Properties of the authenticator *)

Module OAuth2Facts.
Import OAuth2PasswordGrant OAuth2Statements.

Local Open Scope Z_scope.

Lemma get_insert_ne (o : obj) k k' v : k ≠ k' → get (<[k := v]> o) k' = get o k'.
Proof. intros Hne. unfold get. by rewrite lookup_insert_ne. Qed.

Lemma get_assign (target source : obj) k :
  get (assign target source) k =
  match source !! k with Some v => v | None => get target k end.
Proof.
  unfold get, assign. rewrite lookup_union.
  destruct (source !! k), (target !! k); reflexivity.
Qed.

(** *** Numbers *)

Lemma timeClip_in_range x : Z.abs x ≤ MAX_TIME → timeClip x = Some x.
Proof.
  intros H. unfold timeClip. by destruct (Z.leb_spec (Z.abs x) MAX_TIME); [|lia].
Qed.

Lemma timeClip_out_of_range x : MAX_TIME < Z.abs x → timeClip x = None.
Proof.
  intros H. unfold timeClip. by destruct (Z.leb_spec (Z.abs x) MAX_TIME); [lia|].
Qed.

Lemma timeClip_Some x y : timeClip x = Some y → y = x ∧ Z.abs x ≤ MAX_TIME.
Proof.
  unfold timeClip. destruct (Z.leb_spec (Z.abs x) MAX_TIME); [|done].
  by intros [= <-].
Qed.

(** The expiry derived from a number of seconds. *)
Lemma dateAfter_number now expiresIn n :
  toNumber expiresIn = Some n →
  dateAfter now expiresIn
  = if (Z.abs (now + n * 1000) <=? MAX_TIME)%Z
    then VNum (now + n * 1000) else VNaN.
Proof.
  intros Hn. unfold dateAfter, timeClip. rewrite Hn. cbn.
  by destruct (Z.abs (now + n * 1000) <=? MAX_TIME)%Z.
Qed.

(** Strings of digits are read as the numbers they spell. *)
Example toNumber_strings :
  toNumber (VStr "3600") = Some 3600 ∧ toNumber (VStr "-5") = Some (-5)
  ∧ toNumber (VStr "+07") = Some 7 ∧ toNumber (VStr "") = Some 0
  ∧ toNumber (VStr "1h") = None ∧ toNumber (VStr "-") = None.
Proof. repeat split. Qed.

(** *** authenticate, the scenario of the specification *)

(** bob/pw against a server that grants AT1 for 3600 s with RT1, at instant
    1000000 with offset 5000: the promise resolves with the response plus
    [expires_at], one POST went out and the refresh is due in 3595000 ms. *)
Example authenticate_granted :
  authenticate defaults browser (VStr "bob") (VStr "pw") [] 1000000 1000000 0
    (Resolved (JObj granted)) initial =
  (Some (Resolved (<["expires_at" := VNum 4600000]> granted)),
   {| _refreshTokenTimeout := Some 0%nat;
      timers := [ {| timer_id := 0; timer_expiresIn := VNum 3600;
                     timer_refreshToken := VStr "RT1";
                     timer_delay := VNum 3595000 |} ];
      next_timer := 1;
      requests := [ {| req_url := VStr "/token";
                       req_data := [("grant_type", VStr "password");
                                    ("username", VStr "bob");
                                    ("password", VStr "pw")] |} ];
      sessionDataUpdated := [] |}).
Proof. compute_done. Qed.

(** *** authenticate on a response without access token *)

(** What the callback does on [tokenless]: the promise is rejected with the
    fixed message, and the code after the [if] still runs. *)
Example authenticate_tokenless :
  authenticate_fulfilled defaults browser 1000000 1000000 0 tokenless initial =
  (Some (Rejected (Message "access_token is missing in server response")),
   <["expires_at" := VNum 4600000]> tokenless,
   {| _refreshTokenTimeout := Some 0%nat;
      timers := [ {| timer_id := 0; timer_expiresIn := VNum 3600;
                     timer_refreshToken := VStr "RT1";
                     timer_delay := VNum 3595000 |} ];
      next_timer := 1;
      requests := [];
      sessionDataUpdated := [] |}).
Proof. compute_done. Qed.

(** C1, as stated, fails on [tokenless]: the rejection carries a message
    string and not a response, a refresh timer is pending afterwards and
    the response object has gained [expires_at]. *)
Lemma invalid_response_counterexample :
  ¬ invalid_response_only_rejects defaults browser 1000000 1000000 0
      tokenless initial.
Proof.
  unfold invalid_response_only_rejects. rewrite authenticate_tokenless.
  intros H. destruct (H eq_refl) as [[r Hr] _]. discriminate Hr.
Qed.

(** C1 (amended): for every HTTP-success reply to [authenticate] whose
    body is not [null] and whose [access_token] is empty or missing, the
    returned promise is rejected with the message
    ["access_token is missing in server response"]; the [resolve] call
    that follows does not change the settled promise. For the body [null]
    reading [access_token] throws: the promise is never settled and nothing
    but the POST has happened. *)
Theorem authenticate_invalid_response_rejected
    (cfg : config) (rt : runtime) (identification password : value)
    (scope : list string) (now now2 : Z) (roll : nat) (body : json)
    (st : state) :
  let r := authenticate cfg rt identification password scope now now2 roll
             (Resolved body) st in
  (∀ response, props body = Some response → _validate response = false →
     fst r
     = Some (Rejected (Message "access_token is missing in server response")))
  ∧ (body ≠ JNull → ∃ response, props body = Some response)
  ∧ (body = JNull →
       r = (None, authenticate_post cfg identification password scope st)).
Proof.
  cbv zeta. unfold authenticate, authenticate_body. split; [|split].
  - intros response -> Hinvalid. unfold authenticate_fulfilled.
    rewrite Hinvalid. reflexivity.
  - destruct body; [done | by eexists | by eexists].
  - by intros ->.
Qed.

Lemma authenticate_invalid_response_rejected_witness :
  _validate tokenless = false ∧
  fst (authenticate defaults browser (VStr "bob") (VStr "pw") []
         1000000 1000000 0 (Resolved (JObj tokenless)) initial)
  = Some (Rejected (Message "access_token is missing in server response")).
Proof.
  split; [reflexivity|].
  apply (proj1 (authenticate_invalid_response_rejected defaults browser
                  (VStr "bob") (VStr "pw") [] 1000000 1000000 0
                  (JObj tokenless) initial) tokenless); reflexivity.
Defined.

(** *** restore *)

(** The data the refresh callback resolves with carries the recomputed
    expiry. *)
Lemma refresh_fulfilled_expires_at cfg rt now now2 roll expiresIn refreshToken
    scope response st data' :
  fst (refresh_fulfilled cfg rt now now2 roll expiresIn refreshToken scope
         response st)
    = Some (Resolved data') →
  get data' "expires_at"
  = _absolutizeExpirationTime now (js_or (get response "expires_in") expiresIn).
Proof.
  unfold refresh_fulfilled. cbn [fst resolve]. intros [= <-].
  destruct (refreshAccessTokensWithScope cfg && _).
  - rewrite get_insert_ne by done. rewrite get_assign.
    rewrite lookup_insert_ne by done. by rewrite lookup_insert_eq.
  - rewrite get_assign.
    rewrite lookup_insert_ne by done. by rewrite lookup_insert_eq.
Qed.

Lemma expired_number data now :
  expired data now = true →
  ∃ b, toNumber (get data "expires_at") = Some b ∧ b < now.
Proof.
  unfold expired, js_lt. intros [_ H]%andb_true_iff.
  destruct (toNumber (get data "expires_at")) as [b|]; [|done].
  exists b. split; [done|]. by apply Z.ltb_lt.
Qed.

Example restore_stale_snapshot :
  fst (restore defaults browser stale_snapshot 2000 2000 0
         (Resolved (JObj renewed)) 2500 2500 0 initial)
  = Some (Resolved (<["expires_in" := VUndef]>
                      (<["expires_at" := VUndef]>
                         (<["refresh_token" := VStr "RT1"]> renewed)))).
Proof. compute_done. Qed.

(** C2, as stated, fails on [stale_snapshot]: the refresh succeeds and the
    resulting [expires_at] is [undefined], not a later instant. *)
Lemma restore_counterexample :
  ¬ restore_as_specified defaults browser stale_snapshot 2000 2000 0
      (Resolved (JObj renewed)) 2500 2500 0 initial.
Proof.
  unfold restore_as_specified. intros [H _].
  destruct (H eq_refl eq_refl) as [_ Hgt].
  specialize (Hgt _ restore_stale_snapshot). vm_compute in Hgt. discriminate Hgt.
Qed.

(** A snapshot whose numbers are strings is expired all the same, and its
    refresh computes with the numbers they spell. *)
Example restore_strings :
  expired expired_snapshot_strings 2000 = true
  ∧ fst (restore defaults browser expired_snapshot_strings 2000 2000 0
           (Resolved (JObj renewed)) 2500 2500 0 initial)
    = Some (Resolved (<["expires_in" := VStr "3600"]>
                        (<["expires_at" := VNum 3602500]>
                           (<["refresh_token" := VStr "RT1"]> renewed)))).
Proof. split; [reflexivity | compute_done]. Qed.

(** C2 (amended): for snapshots and replies whose [expires_at] and
    [expires_in] are [undefined], [null], integers up to
    [MAX_SAFE_INTEGER] or strings of decimal digits spelling such an
    integer, and clock readings that are time values ([now] and [now2]
    those of [restore] and of its scheduling step, [now'] and [now2']
    those of the refresh callback and of its scheduling step): [restore]
    on an expired snapshot is the immediate refresh with the stored
    [expires_in], [refresh_token] and [scope] when refresh is enabled and
    a rejection when it is disabled; on a snapshot that is not expired it
    resolves with [data] unchanged, after the scheduling step, exactly
    when the access token is non-empty, and rejects otherwise. The refresh
    succeeds only on a reply whose body is not [null]; on [null] the
    promise is never settled. After a successful refresh the new
    [expires_at] is [now' + expires_in * 1000], strictly greater than the
    snapshot's, whenever the clock has not gone backwards, the
    [expires_in] in force (the server's when truthy, else the stored one)
    is non-negative and that instant is a time value (at most
    [MAX_TIME]); beyond that range the new [expires_at] is NaN, and with
    no [expires_in] in force it is [undefined]. *)
Theorem restore_cases (cfg : config) (rt : runtime) (data : obj)
    (now now2 : Z) (roll : nat) (server : reply) (now' now2' : Z) (roll' : nat)
    (st : state) :
  clock now → clock now2 → clock now' → clock now2' →
  exactb (get data "expires_at") = true →
  exactb (get data "expires_in") = true →
  exactb (expiresInForce server data) = true →
  let r := restore cfg rt data now now2 roll server now' now2' roll' st in
  (expired data now = true → refreshAccessTokens cfg = true →
     r = _refreshAccessToken cfg rt (get data "expires_in")
           (get data "refresh_token") (get data "scope") now' now2' roll'
           server st
     ∧ (∀ data', fst r = Some (Resolved data') →
          ∃ body response, server = Resolved body ∧ props body = Some response)
     ∧ (server = Resolved JNull → fst r = None)
     ∧ (∀ data' n, fst r = Some (Resolved data') →
          now ≤ now' →
          isEmpty (expiresInForce server data) = false →
          toNumber (expiresInForce server data) = Some n → 0 ≤ n →
          now' + n * 1000 ≤ MAX_TIME →
          get data' "expires_at" = VNum (now' + n * 1000)
          ∧ js_gtv (get data' "expires_at") (get data "expires_at") = true)
     ∧ (∀ data' n, fst r = Some (Resolved data') →
          isEmpty (expiresInForce server data) = false →
          toNumber (expiresInForce server data) = Some n →
          MAX_TIME < now' + n * 1000 →
          get data' "expires_at" = VNaN)
     ∧ (∀ data', fst r = Some (Resolved data') →
          isEmpty (expiresInForce server data) = true →
          get data' "expires_at" = VUndef))
  ∧ (expired data now = true → refreshAccessTokens cfg = false →
       fst r = Some (Rejected NoReason))
  ∧ (expired data now = false → _validate data = true →
       fst r = Some (Resolved data)
       ∧ snd r = _scheduleAccessTokenRefresh cfg rt now2 roll
                   (get data "expires_in") (get data "expires_at")
                   (get data "refresh_token") st)
  ∧ (expired data now = false → _validate data = false →
       fst r = Some (Rejected NoReason)).
Proof.
  intros Hnow _ Hnow' _ _ _ _. cbv zeta. unfold restore.
  destruct (expired data now) eqn:Hexp; cycle 1.
  { destruct (_validate data); cbn [negb fst snd];
      (split; [discriminate|]); (split; [discriminate|]);
      split; intros _ H; try discriminate H; auto. }
  destruct (refreshAccessTokens cfg) eqn:Href; cycle 1.
  { cbn [fst reject]. split; [discriminate|]. split; [reflexivity|].
    split; discriminate. }
  split; [|split; [discriminate|split; discriminate]].
  intros _ _. split; [reflexivity|].
  unfold _refreshAccessToken, expiresInForce.
  destruct server as [body|e]; cbn [fst reject]; cycle 1.
  { repeat split; discriminate. }
  destruct (props body) as [response|] eqn:Hbody; cbn [fst]; cycle 1.
  { repeat split; discriminate. }
  split; [intros; by eexists _, _|].
  split; [intros [= ->]; discriminate Hbody|].
  split; [|split].
  - intros data' n Hres Hclock Hset Hforce Hn Hrange.
    apply refresh_fulfilled_expires_at in Hres.
    destruct (expired_number _ _ Hexp) as (b & Hb & Hlt).
    unfold _absolutizeExpirationTime in Hres. rewrite Hset in Hres.
    cbn [negb] in Hres. rewrite (dateAfter_number _ _ _ Hforce) in Hres.
    unfold clock in *.
    destruct (Z.leb_spec (Z.abs (now' + n * 1000)) MAX_TIME) as [_|Hout];
      [|lia].
    split; [exact Hres|]. rewrite Hres. unfold js_gtv, js_gt. rewrite Hb.
    cbn [toNumber]. apply Z.ltb_lt. lia.
  - intros data' n Hres Hset Hforce Hrange.
    apply refresh_fulfilled_expires_at in Hres.
    unfold _absolutizeExpirationTime in Hres. rewrite Hset in Hres.
    cbn [negb] in Hres. rewrite (dateAfter_number _ _ _ Hforce) in Hres.
    destruct (Z.leb_spec (Z.abs (now' + n * 1000)) MAX_TIME) as [Hin|_];
      [lia|done].
  - intros data' Hres Hforce.
    apply refresh_fulfilled_expires_at in Hres.
    rewrite Hres. unfold _absolutizeExpirationTime. by rewrite Hforce.
Qed.

Example restore_expired_snapshot :
  fst (restore defaults browser expired_snapshot 2000 2000 0
         (Resolved (JObj renewed_full)) 2500 2501 0 initial)
  = Some (Resolved renewed_data).
Proof. compute_done. Qed.

Lemma restore_cases_witness :
  fst (restore defaults browser expired_snapshot 2000 2000 0
         (Resolved (JObj renewed_full)) 2500 2501 0 initial)
  = Some (Resolved renewed_data)
  ∧ js_gtv (get renewed_data "expires_at") (get expired_snapshot "expires_at")
    = true.
Proof.
  assert (clock 2000) as Hnow by (unfold clock, MAX_TIME; lia).
  assert (clock 2500) as Hnow' by (unfold clock, MAX_TIME; lia).
  assert (clock 2501) as Hnow2' by (unfold clock, MAX_TIME; lia).
  pose proof (restore_cases defaults browser expired_snapshot 2000 2000 0
                (Resolved (JObj renewed_full)) 2500 2501 0 initial
                Hnow Hnow Hnow' Hnow2' eq_refl eq_refl eq_refl) as H.
  cbv zeta in H. destruct H as [H _].
  assert (expired expired_snapshot 2000 = true) as Hexp
    by (vm_compute; reflexivity).
  assert (toNumber (expiresInForce (Resolved (JObj renewed_full))
                      expired_snapshot) = Some 7200)
    as Hforce by (vm_compute; reflexivity).
  destruct (H Hexp eq_refl) as (_ & _ & _ & Hgt & _).
  split; [exact restore_expired_snapshot|].
  apply (Hgt _ 7200 restore_expired_snapshot);
    [lia | reflexivity | exact Hforce | lia | unfold MAX_TIME; lia].
Defined.

(** *** The single refresh timer *)

Lemma at_most_one_same st st' :
  timers st' = timers st → _refreshTokenTimeout st' = _refreshTokenTimeout st →
  at_most_one st → at_most_one st'.
Proof. unfold at_most_one. intros -> ->. done. Qed.

Lemma cancel_refresh_timers st :
  at_most_one st → timers (cancel_refresh st) = [].
Proof.
  intros [H | (t & Ht & Hh)]; unfold cancel_refresh, cancel; cbn.
  - rewrite H. by destruct (_refreshTokenTimeout st).
  - rewrite Ht, Hh. cbn. case_decide; [congruence | done].
Qed.

Lemma later_single expiresIn refreshToken delay st :
  timers st = [] →
  at_most_one (later expiresIn refreshToken delay st).
Proof. intros H. right. unfold later. cbn. rewrite H. by eexists. Qed.

Lemma schedule_at_most_one cfg rt now roll expiresIn expiresAt refreshToken st :
  at_most_one st →
  at_most_one (_scheduleAccessTokenRefresh cfg rt now roll
                 expiresIn expiresAt refreshToken st).
Proof.
  intros H. unfold _scheduleAccessTokenRefresh.
  destruct (refreshAccessTokens cfg && negb (isFastBoot rt)); [|done].
  destruct (negb (isEmpty refreshToken) && _ && _); [|done].
  pose proof (cancel_refresh_timers st H) as Hc.
  destruct (negb (isTesting rt)).
  - by apply later_single.
  - by left.
Qed.

Lemma foldl_makeRequest_frame cfg url forms st :
  let st' := foldl (λ st form, makeRequest cfg url form st) st forms in
  timers st' = timers st ∧ _refreshTokenTimeout st' = _refreshTokenTimeout st
  ∧ next_timer st' = next_timer st.
Proof.
  revert st. induction forms as [|form forms IH]; intros st; cbn; [done|].
  destruct (IH (makeRequest cfg url form st)) as (-> & -> & ->). done.
Qed.

Lemma refresh_at_most_one cfg rt expiresIn refreshToken scope now now2 roll
    server st :
  at_most_one st →
  at_most_one (snd (_refreshAccessToken cfg rt expiresIn refreshToken scope
                      now now2 roll server st)).
Proof.
  intros H. unfold _refreshAccessToken.
  destruct server as [body|e]; [destruct (props body) as [response|]|].
  - unfold refresh_fulfilled. cbn [snd].
    eapply at_most_one_same; [reflexivity..|].
    apply schedule_at_most_one.
    eapply at_most_one_same; [| |exact H]; reflexivity.
  - cbn [snd]. eapply at_most_one_same; [| |exact H]; reflexivity.
  - cbn [snd]. eapply at_most_one_same; [| |exact H]; reflexivity.
Qed.

Lemma timer_fires_at_most_one t st :
  at_most_one st → at_most_one (timer_fires t st).
Proof.
  intros [H | (u & Hu & Hh)]; [left | ]; unfold timer_fires; cbn.
  - by rewrite H.
  - rewrite Hu. cbn. case_decide; [right; by eexists | by left].
Qed.

Lemma step_at_most_one cfg rt st st' :
  step cfg rt st st' → at_most_one st → at_most_one st'.
Proof.
  intros Hstep H. destruct Hstep as
    [identification password scope now now2 roll server st
    |data now now2 roll server now' now2' roll' st
    |data server st
    |t now now2 roll server st Ht
    |url data st
    |t st Ht
    |now now2 roll response st
    |now now2 roll expiresIn refreshToken scope response st
    |st].
  - unfold authenticate, authenticate_body.
    destruct server as [body|e]; [destruct (props body) as [response|]|];
      cbn [snd].
    + unfold authenticate_fulfilled. cbn [snd].
      apply schedule_at_most_one.
      eapply at_most_one_same; [| |exact H]; reflexivity.
    + eapply at_most_one_same; [| |exact H]; reflexivity.
    + eapply at_most_one_same; [| |exact H]; reflexivity.
  - unfold restore. destruct (expired data now).
    + destruct (refreshAccessTokens cfg); [|done].
      by apply refresh_at_most_one.
    + destruct (negb (_validate data)); [done|].
      by apply schedule_at_most_one.
  - left. unfold invalidate.
    destruct (isEmpty (serverTokenRevocationEndpoint cfg)); cbn [snd].
    + by apply cancel_refresh_timers.
    + apply cancel_refresh_timers.
      eapply at_most_one_same; [| |exact H];
        apply foldl_makeRequest_frame.
  - unfold fire. by apply refresh_at_most_one, timer_fires_at_most_one.
  - eapply at_most_one_same; [| |exact H]; reflexivity.
  - by apply timer_fires_at_most_one.
  - unfold authenticate_fulfilled. cbn [snd]. by apply schedule_at_most_one.
  - unfold refresh_fulfilled. cbn [snd].
    eapply at_most_one_same; [reflexivity..|]. by apply schedule_at_most_one.
  - left. by apply cancel_refresh_timers.
Qed.

Lemma reachable_at_most_one cfg rt st : reachable cfg rt st → at_most_one st.
Proof.
  induction 1 as [|st st' _ IH Hstep]; [by left|].
  by eapply step_at_most_one.
Qed.

Lemma at_most_one_length st : at_most_one st → (length (timers st) ≤ 1)%nat.
Proof. intros [-> | (t & -> & _)]; cbn; lia. Qed.

(** *** invalidate *)

Example invalidate_first_fails :
  (invalidate revoking both_tokens first_fails initial).1.1 = 1%nat.
Proof. vm_compute. reflexivity. Qed.

(** C5, as stated, fails when the first revocation is rejected before the
    second one settles: [Promise.all] is rejected at once and [invalidate]
    resolves at instant 1, while the second request settles at instant 5. *)
Lemma invalidate_counterexample :
  ¬ invalidate_as_specified revoking browser both_tokens first_fails initial.
Proof.
  unfold invalidate_as_specified. cbv zeta. intros H.
  destruct (H (reachable_initial _ _)) as (_ & _ & _ & Hreq).
  destruct (Hreq eq_refl) as [_ Hwait].
  specialize (Hwait 1%nat). rewrite invalidate_first_fails in Hwait.
  vm_compute in Hwait. specialize (Hwait (le_n 2)).
  lia.
Qed.

Lemma requests_foldl_makeRequest cfg url forms st :
  requests (foldl (λ st form, makeRequest cfg url form st) st forms)
  = requests st ++
    ((λ form, {| req_url := url;
                 req_data := if negb (isEmpty (clientId cfg))
                             then form ++ [("client_id", clientId cfg)]
                             else form |}) <$> forms).
Proof.
  revert st. induction forms as [|form forms IH]; intros st; cbn.
  - by rewrite app_nil_r.
  - rewrite IH. cbn. by rewrite <- app_assoc.
Qed.

Lemma revocation_requests cfg data :
  ((λ form, {| req_url := serverTokenRevocationEndpoint cfg;
               req_data := if negb (isEmpty (clientId cfg))
                           then form ++ [("client_id", clientId cfg)]
                           else form |}) <$> revocation_forms data)
  = revocation_posts cfg data.
Proof.
  unfold revocation_forms, revocation_form, revocation_posts, revocation_post.
  destruct (isEmpty (get data "access_token")),
    (isEmpty (get data "refresh_token")), (isEmpty (clientId cfg)); reflexivity.
Qed.

Lemma revocation_posts_length cfg data :
  length (revocation_posts cfg data) = length (revocation_forms data).
Proof. rewrite <- revocation_requests. by rewrite length_fmap. Qed.

(** [Promise.all] over replies none of which is a rejection settles when
    the last one does. *)
Lemma promise_all_fulfilled {A} (rs : list (nat * outcome A)) :
  (∀ i r, rs !! i = Some r → is_rejected r.2 = false) →
  ∀ i r, rs !! i = Some r → (r.1 ≤ (promise_all rs).1)%nat.
Proof.
  intros Hall. unfold promise_all.
  assert (filter (λ r, is_rejected r.2 = true) rs = []) as ->.
  { clear -Hall. induction rs as [|r rs IH]; [done|].
    rewrite filter_cons. rewrite decide_False.
    - apply IH. intros i r' Hi. apply (Hall (S i) r' Hi).
    - rewrite (Hall 0%nat r eq_refl). discriminate. }
  cbn [fst]. clear Hall. induction rs as [|r' rs IH]; intros i r Hi.
  - by rewrite lookup_nil in Hi.
  - destruct i as [|i]; cbn in *.
    + injection Hi as ->. lia.
    + specialize (IH i r Hi). lia.
Qed.

(** [Promise.all] over replies one of which is a rejection settles at the
    earliest rejection. *)
Lemma promise_all_rejected {A} (rs : list (nat * outcome A)) :
  (∃ i r, rs !! i = Some r ∧ is_rejected r.2 = true) →
  (∃ i r, rs !! i = Some r ∧ is_rejected r.2 = true ∧ (promise_all rs).1 = r.1)
  ∧ ∀ j r, rs !! j = Some r → is_rejected r.2 = true →
      ((promise_all rs).1 ≤ r.1)%nat.
Proof.
  intros (i & r & Hi & Hr). unfold promise_all.
  set (P := λ r : nat * outcome A, is_rejected r.2 = true).
  assert (r ∈ filter P rs) as Hin.
  { apply list_elem_of_filter. split; [done|]. by eapply list_elem_of_lookup_2. }
  destruct (filter P rs) as [|r0 rej] eqn:Hf; [by apply not_elem_of_nil in Hin|].
  cbn [fst]. clear i r Hi Hr Hin.
  assert (∀ x, x ∈ r0 :: rej → x ∈ rs ∧ is_rejected x.2 = true) as Hsub.
  { intros x Hx. rewrite <- Hf in Hx. apply list_elem_of_filter in Hx. tauto. }
  assert (∀ x, x ∈ rs → is_rejected x.2 = true → x ∈ r0 :: rej) as Hsup.
  { intros x Hx Hr. rewrite <- Hf. apply list_elem_of_filter. by split. }
  assert (∀ (l : list (nat * outcome A)) (d : nat),
            (∀ x, x ∈ l → (foldr Nat.min d l.*1 ≤ x.1)%nat)
            ∧ (foldr Nat.min d l.*1 ≤ d)%nat
            ∧ (foldr Nat.min d l.*1 = d ∨ ∃ x, x ∈ l ∧ foldr Nat.min d l.*1 = x.1))
    as Hmin.
  { induction l as [|y l IH]; intros d; cbn.
    - split; [intros x Hx; by apply not_elem_of_nil in Hx|]. split; [lia|by left].
    - destruct (IH d) as (H1 & H2 & H3). split; [|split].
      + intros x [->|Hx]%elem_of_cons; [lia|]. specialize (H1 x Hx). lia.
      + lia.
      + destruct (Nat.min_spec y.1 (foldr Nat.min d l.*1)) as [[_ ->]|[_ ->]].
        * right. exists y. split; [left|done].
        * destruct H3 as [->|(x & Hx & ->)]; [by left|].
          right. exists x. split; [by right|done]. }
  destruct (Hmin rej r0.1) as (H1 & H2 & H3). split.
  - assert (∃ x, x ∈ r0 :: rej ∧ foldr Nat.min r0.1 rej.*1 = x.1) as (x & Hx & ->).
    { destruct H3 as [->|(x & Hx & ->)].
      - exists r0. split; [left|done].
      - exists x. split; [by right|done]. }
    destruct (Hsub x Hx) as [Hxs Hxr].
    apply list_elem_of_lookup_1 in Hxs as [i Hi]. by exists i, x.
  - intros j r Hj Hr.
    assert (r ∈ r0 :: rej) as [->|Hin]%elem_of_cons.
    { apply Hsup; [|done]. by eapply list_elem_of_lookup_2. }
    + done.
    + by apply H1.
Qed.

Lemma lookup_replies (server : nat → nat * reply)
    (forms : list (list (string * value))) i r :
  imap (λ i _, server i) forms !! i = Some r ↔
  (i < length forms)%nat ∧ r = server i.
Proof.
  rewrite list_lookup_imap. split.
  - intros H. destruct (forms !! i) eqn:Hi; [|done]. cbn in H.
    injection H as <-. split; [|done]. by eapply lookup_lt_Some.
  - intros [Hlt ->]. apply lookup_lt_is_Some_2 in Hlt as [form ->]. done.
Qed.

(** C5 (amended): [invalidate] cancels the pending refresh timer; without a
    revocation endpoint it resolves at once and posts nothing; with one it
    posts exactly one revocation per present token among [access_token] and
    [refresh_token], each tagged with [token_type_hint], and resolves once
    all of them have succeeded or as soon as the first of them fails,
    without waiting for the others; it never rejects. *)
Theorem invalidate_resolves (cfg : config) (rt : runtime) (data : obj)
    (server : nat → nat * reply) (st : state) :
  let r := invalidate cfg data server st in
  let posts := revocation_posts cfg data in
  let n := length posts in
  reachable cfg rt st →
  (_refreshTokenTimeout r.2 = None ∧ timers r.2 = [])
  ∧ r.1.2 = Some (Resolved ())
  ∧ (isEmpty (serverTokenRevocationEndpoint cfg) = true →
       requests r.2 = requests st ∧ r.1.1 = 0%nat)
  ∧ (isEmpty (serverTokenRevocationEndpoint cfg) = false →
       requests r.2 = requests st ++ posts
       ∧ ((∀ i, (i < n)%nat → is_rejected (server i).2 = false) →
          ∀ i, (i < n)%nat → ((server i).1 ≤ r.1.1)%nat)
       ∧ ((∃ i, (i < n)%nat ∧ is_rejected (server i).2 = true) →
          (∃ i, (i < n)%nat ∧ is_rejected (server i).2 = true
                ∧ r.1.1 = (server i).1)
          ∧ ∀ j, (j < n)%nat → is_rejected (server j).2 = true →
              (r.1.1 ≤ (server j).1)%nat)).
Proof.
  cbv zeta. intros Hreach. apply reachable_at_most_one in Hreach.
  unfold invalidate.
  destruct (isEmpty (serverTokenRevocationEndpoint cfg)) eqn:Hend; cbn [fst snd].
  { split; [split; [done | by apply cancel_refresh_timers]|].
    split; [done|]. split; [done | discriminate]. }
  set (forms := revocation_forms data).
  set (url := serverTokenRevocationEndpoint cfg).
  set (st1 := foldl _ st forms).
  assert (at_most_one st1) as H1.
  { eapply at_most_one_same; [| |exact Hreach];
      apply foldl_makeRequest_frame. }
  split; [split; [done | by apply cancel_refresh_timers]|].
  split; [done|]. split; [discriminate|]. intros _.
  rewrite revocation_posts_length. fold forms.
  split; [|split].
  - change (requests (cancel_refresh st1)) with (requests st1).
    unfold st1. rewrite requests_foldl_makeRequest.
    unfold url, forms. by rewrite revocation_requests.
  - intros Hall i Hi.
    apply (promise_all_fulfilled (imap (λ i _, server i) forms)) with (i := i).
    + intros j r [Hj ->]%lookup_replies. by apply Hall.
    + by apply lookup_replies.
  - intros (i & Hi & Hrej).
    destruct (promise_all_rejected (imap (λ i _, server i) forms))
      as [(k & r & Hk & Hr & Heq) Hmin].
    { exists i, (server i). split; [by apply lookup_replies | done]. }
    apply lookup_replies in Hk as [Hk ->]. split.
    + by exists k.
    + intros j Hj Hjr. apply (Hmin j); [by apply lookup_replies | done].
Qed.

Lemma invalidate_resolves_witness :
  reachable revoking browser initial ∧
  (invalidate revoking both_tokens first_fails initial).1.2 = Some (Resolved ())
  ∧ (invalidate revoking both_tokens first_fails initial).1.1 = (first_fails 0).1.
Proof.
  split; [constructor|].
  destruct (invalidate_resolves revoking browser both_tokens first_fails initial
              (reachable_initial _ _)) as (_ & Hres & _ & Hreq).
  split; [exact Hres|].
  destruct (Hreq eq_refl) as (_ & _ & Hrej).
  destruct Hrej as [(i & Hi & Hr & Heq) _].
  { exists 0%nat. split; [vm_compute; lia | reflexivity]. }
  rewrite Heq. destruct i as [|i]; [reflexivity|]. discriminate Hr.
Defined.

(** *** Refresh scheduling *)

(** A snapshot that expires this very millisecond: the guard
    [expiresAt > now - offset] holds and a timer with the negative delay
    [-5000] is created. *)
Example schedule_at_expiry :
  timers (_scheduleAccessTokenRefresh defaults browser 10000000 0
            (VNum 3600) (VNum 10000000) (VStr "RT1") initial)
  = [ {| timer_id := 0; timer_expiresIn := VNum 3600;
         timer_refreshToken := VStr "RT1"; timer_delay := VNum (-5000) |} ].
Proof. vm_compute. reflexivity. Qed.

(** C8, as stated, fails there: a timer is created although the computed
    fire time, [-5000], is not later than [now - offset], 9995000 (nor is it
    positive). *)
Lemma schedule_counterexample :
  ¬ schedule_as_specified defaults browser 10000000 0
      (VNum 3600) (VNum 10000000) (VStr "RT1") initial.
Proof.
  unfold schedule_as_specified. cbv zeta. intros [H _].
  destruct H as (_ & _ & _ & _ & _ & e & He & Hlt).
  { vm_compute. discriminate. }
  vm_compute in He. injection He as <-. vm_compute in Hlt. discriminate Hlt.
Qed.

Lemma tokenRefreshOffset_range roll : 5000 ≤ tokenRefreshOffset roll < 10000.
Proof.
  unfold tokenRefreshOffset.
  pose proof (Nat.mod_upper_bound roll 5 ltac:(lia)). lia.
Qed.

Lemma effectiveExpiresAt_known now expiresIn expiresAt :
  isEmpty (effectiveExpiresAt now expiresIn expiresAt) = false →
  isEmpty expiresAt = false ∨ isEmpty expiresIn = false.
Proof.
  unfold effectiveExpiresAt.
  destruct (isEmpty expiresAt) eqn:Ha, (isEmpty expiresIn) eqn:Hi; cbn; auto.
  intros H. rewrite Ha in H. discriminate H.
Qed.

(** The expiry the scheduling works with, as a number: the given
    [expires_at], or [now + expires_in * 1000] when that is a time value. *)
Lemma effectiveExpiresAt_number now expiresIn expiresAt e :
  isEmpty (effectiveExpiresAt now expiresIn expiresAt) = false →
  toNumber (effectiveExpiresAt now expiresIn expiresAt) = Some e →
  (isEmpty expiresAt = false ∧ toNumber expiresAt = Some e)
  ∨ (isEmpty expiresAt = true ∧ isEmpty expiresIn = false
     ∧ ∃ n, toNumber expiresIn = Some n ∧ e = now + n * 1000
            ∧ Z.abs e ≤ MAX_TIME).
Proof.
  unfold effectiveExpiresAt.
  destruct (isEmpty expiresAt) eqn:Ha, (isEmpty expiresIn) eqn:Hi;
    cbn [andb negb]; rewrite ?Ha; try done; try (intros _ He; by left).
  intros _. unfold dateAfter.
  destruct (toNumber expiresIn) as [n|]; [|done]. cbn.
  destruct (timeClip (now + n * 1000)) as [x|] eqn:Hclip; [|done].
  apply timeClip_Some in Hclip as [-> Hrange]. cbn. intros [= <-].
  right. split; [done|]. split; [done|]. by exists n.
Qed.

(** C8 (amended): for [expires_in] and [expires_at] that are [undefined],
    [null], integers up to [MAX_SAFE_INTEGER] or strings of decimal
    digits spelling such an integer, and a clock reading that is a time
    value: [_scheduleAccessTokenRefresh] creates a timer exactly when
    refresh is enabled, the app runs neither in FastBoot nor in a test
    build, a refresh token exists, an expiry is known ([expires_at] given
    or derived from [expires_in]) and that expiry is later than
    [now - tokenRefreshOffset]; an expiry derived from [expires_in] is
    [now + expires_in * 1000], and is NaN (so that no timer is created)
    when that is beyond [MAX_TIME]. The timer's delay is
    [expires_at - now - offset] (which may be negative, down to
    [-2 * offset]), the timer held before is cancelled first, and in every
    reachable state at most one refresh timer is pending. *)
Theorem refresh_scheduled_iff (cfg : config) (rt : runtime)
    (now : Z) (roll : nat) (expiresIn expiresAt refreshToken : value)
    (st : state) :
  clock now → exactb expiresIn = true → exactb expiresAt = true →
  let st' := _scheduleAccessTokenRefresh cfg rt now roll
               expiresIn expiresAt refreshToken st in
  let offset := tokenRefreshOffset roll in
  let expiry := effectiveExpiresAt now expiresIn expiresAt in
  (scheduled st st' ↔
     refreshAccessTokens cfg = true ∧ isFastBoot rt = false
     ∧ isTesting rt = false
     ∧ isEmpty refreshToken = false
     ∧ isEmpty expiry = false
     ∧ js_gt expiry (now - offset) = true)
  ∧ (isEmpty expiry = false →
       isEmpty expiresAt = false ∨ isEmpty expiresIn = false)
  ∧ (∀ n, isEmpty expiresAt = true → isEmpty expiresIn = false →
       toNumber expiresIn = Some n →
       expiry = if (Z.abs (now + n * 1000) <=? MAX_TIME)%Z
                then VNum (now + n * 1000) else VNaN)
  ∧ (scheduled st st' →
       ∃ t e, timers st' = cancel (_refreshTokenTimeout st) (timers st) ++ [t]
              ∧ _refreshTokenTimeout st' = Some (timer_id t)
              ∧ toNumber expiry = Some e
              ∧ timer_delay t = VNum (e - now - offset)
              ∧ - 2 * offset < e - now - offset)
  ∧ 5000 ≤ offset < 10000
  ∧ (reachable cfg rt st →
       (length (timers st) ≤ 1)%nat ∧ (length (timers st') ≤ 1)%nat).
Proof.
  intros _ _ _. cbv zeta.
  pose proof (tokenRefreshOffset_range roll) as Hoff.
  split; [|split; [apply effectiveExpiresAt_known|split; [|split; [|split]]]];
    cycle 1.
  { intros n Ha Hi Hn. unfold effectiveExpiresAt. rewrite Ha, Hi.
    cbn [andb negb]. by apply dateAfter_number. }
  { unfold _scheduleAccessTokenRefresh, scheduled.
    destruct (refreshAccessTokens cfg && negb (isFastBoot rt)); [|done].
    destruct (negb (isEmpty refreshToken)); cbn [andb]; [|done].
    destruct (negb (isEmpty (effectiveExpiresAt now expiresIn expiresAt)));
      cbn [andb]; [|done].
    unfold js_gt.
    destruct (toNumber (effectiveExpiresAt now expiresIn expiresAt)) as [e|];
      [|done].
    destruct (Z.ltb_spec (now - tokenRefreshOffset roll) e) as [Hlt|]; [|done].
    destruct (negb (isTesting rt)); [|done].
    intros _. eexists _, e. unfold later. cbn.
    split; [reflexivity|]. repeat split. lia. }
  { exact Hoff. }
  { intros Hreach%reachable_at_most_one. split.
    + by apply at_most_one_length.
    + by apply at_most_one_length, schedule_at_most_one. }
  unfold _scheduleAccessTokenRefresh, scheduled.
  destruct (refreshAccessTokens cfg), (isFastBoot rt), (isTesting rt),
    (isEmpty refreshToken),
    (isEmpty (effectiveExpiresAt now expiresIn expiresAt)),
    (js_gt (effectiveExpiresAt now expiresIn expiresAt)
       (now - tokenRefreshOffset roll));
    cbn; intuition (try congruence; try lia).
Qed.

(** With [expires_in] given as the string ["3600"] the timer is created as
    for the number; with 9000000000000 seconds the derived expiry is NaN
    and none is created. *)
Example schedule_string_and_overflow :
  timers (_scheduleAccessTokenRefresh defaults browser 1000000 0
            (VStr "3600") VUndef (VStr "RT1") initial)
  = [ {| timer_id := 0; timer_expiresIn := VStr "3600";
         timer_refreshToken := VStr "RT1"; timer_delay := VNum 3595000 |} ]
  ∧ timers (_scheduleAccessTokenRefresh defaults browser 1000000 0
              (VNum 9000000000000) VUndef (VStr "RT1") initial) = [].
Proof. split; vm_compute; reflexivity. Qed.

Lemma refresh_scheduled_iff_witness :
  clock 1000000 ∧ exactb (VStr "3600") = true ∧ exactb VUndef = true
  ∧ scheduled initial
      (_scheduleAccessTokenRefresh defaults browser 1000000 0
         (VStr "3600") VUndef (VStr "RT1") initial)
  ∧ (length (timers (_scheduleAccessTokenRefresh defaults browser 1000000 0
                       (VStr "3600") VUndef (VStr "RT1") initial)) ≤ 1)%nat.
Proof.
  assert (clock 1000000) as Hnow by (unfold clock, MAX_TIME; lia).
  split; [exact Hnow|]. split; [reflexivity|]. split; [reflexivity|].
  destruct (refresh_scheduled_iff defaults browser 1000000 0
              (VStr "3600") VUndef (VStr "RT1") initial Hnow eq_refl eq_refl)
    as (Hiff & _ & _ & _ & _ & H).
  split.
  - apply Hiff. repeat split.
  - exact (proj2 (H (reachable_initial _ _))).
Defined.

End OAuth2Facts.

(** ** Properties of the session *)

Module SessionFacts.
Import InternalSession SessionStatements.

(** Unfold the session monad down to pairs. *)
Ltac monad_unfold :=
  unfold _clearWithContent, _bindToAuthenticatorEvents, store_persist,
    setProperties, set_content, set_attemptedTransition, set_busy, emit, this,
    mbind, M_bind, mret, M_ret.

Ltac session_unfold :=
  unfold authenticate, authenticate_begin, authenticate_settled, invalidate,
    restore, setUnknownProperty, _onSessionDataUpdated,
    _onSessionDataInvalidated, onStoreSessionDataUpdated,
    _clear, _setup, _updateStore;
  monad_unfold.

(** Simplify without computing inside the finite maps. *)
Ltac session_simpl :=
  cbn -[assign singletonM union delete insert lookup empty
        _setup _clear _updateStore].

Lemma truthy_not_empty v : truthy v = true → isEmpty v = false.
Proof.
  destruct v as [| |b|n| |str]; cbn; try done.
  by intros ->%negb_true_iff.
Qed.

(** *** Two runs *)

(** Signing out: the authenticator's [invalidate] resolves, the store takes
    the write. *)
Example invalidate_signed_in :
  invalidate (Resolved ()) (Resolved ()) signed_in =
  (Resolved (),
   signed_out_after,
   [Call oauth2 "invalidate" (Some (<["authenticator" := oauth2]> token_AT1));
    Off oauth2;
    Persist {| authenticated := Some ∅; custom := ∅ |};
    Trigger invalidationSucceeded]).
Proof. compute_done. Qed.

(** Signing out when the authenticator refuses: the session stays
    authenticated and [sessionInvalidationFailed] is triggered. *)
Example invalidate_refused :
  invalidate (Rejected (Message "no")) (Resolved ()) signed_in =
  (Rejected (Message "no"),
   signed_in_after_refusal,
   [Call oauth2 "invalidate" (Some (<["authenticator" := oauth2]> token_AT1));
    Trigger (sessionInvalidationFailed (Message "no"))]).
Proof. compute_done. Qed.

(** *** _updateStore *)

(** C10: every [store.persist] of the session goes through [_updateStore],
    and while an authenticator is bound the persisted data carry its
    identifier under [authenticated.authenticator]: the keys the
    [authenticated] object already has, a key [authenticator] included, win
    over the injected one, so the key is always present; the merged object
    is also what the session's content holds afterwards. With no
    authenticator bound the content is persisted as it is. *)
Theorem updateStore_authenticator_key (persist : outcome ()) (s : session) :
  let r := _updateStore persist s in
  let before := default ∅ (authenticated (content s)) in
  ∃ data,
    r.2 = [Persist data] ∧ content r.1.2 = data
    ∧ custom data = custom (content s)
    ∧ (isEmpty (authenticator s) = false →
         ∃ a, authenticated data = Some a
              ∧ (∀ k v, before !! k = Some v → a !! k = Some v)
              ∧ (before !! "authenticator" = None →
                   a !! "authenticator" = Some (authenticator s))
              ∧ is_Some (a !! "authenticator")
              ∧ (∀ k, k ≠ "authenticator" → a !! k = before !! k))
    ∧ (isEmpty (authenticator s) = true → data = content s).
Proof.
  cbv zeta. session_unfold. cbn.
  destruct (isEmpty (authenticator s)) eqn:Hname; cbn.
  - eexists. split; [reflexivity|]. split; [reflexivity|].
    split; [reflexivity|]. split; [discriminate | reflexivity].
  - eexists. split; [reflexivity|]. split; [reflexivity|].
    split; [reflexivity|]. split; [|discriminate]. intros _.
    eexists. split; [reflexivity|]. unfold assign.
    set (before := default ∅ (authenticated (content s))).
    split; [|split; [|split]].
    + intros k v Hk. by apply lookup_union_Some_l.
    + intros Hk. rewrite lookup_union_r by done. apply lookup_singleton_eq.
    + rewrite lookup_union. destruct (before !! "authenticator"); cbn.
      * by eexists.
      * rewrite lookup_singleton_eq. by eexists.
    + intros k Hk. rewrite lookup_union_l; [done|].
      by apply lookup_singleton_ne.
Qed.

Lemma updateStore_authenticator_key_witness :
  isEmpty (authenticator bound) = false ∧
  ∃ data, (_updateStore (Resolved ()) bound).2 = [Persist data]
          ∧ authenticatorFactory data = oauth2.
Proof.
  split; [reflexivity|].
  destruct (updateStore_authenticator_key (Resolved ()) bound)
    as (data & Hes & _ & _ & Hb & _).
  exists data. split; [exact Hes|].
  destruct (Hb eq_refl) as (a & Ha & _ & Hnew & _).
  unfold authenticatorFactory, get. rewrite Ha. cbn.
  rewrite Hnew; [reflexivity | vm_compute; reflexivity].
Defined.

(** *** _setup *)


(** *** authenticate *)

(** C7: when the authenticator rejects [authenticate], the session ends in
    the unauthenticated state with [_busy] cleared, the cleared content is
    handed to the store (and is what the store holds if it accepts the
    write), nothing is triggered, and the promise rejects with the
    authenticator's error whether or not the write succeeded. *)
Theorem authenticate_rejected_clears (name : value) (error : rejection)
    (persist : outcome ()) (s : session) :
  let r := authenticate name (Rejected error) persist s in
  r.1.1 = Rejected error
  ∧ cleared r.1.2
  ∧ custom (content r.1.2) = custom (content s)
  ∧ _busy r.1.2 = false
  ∧ persists r.2 = [content r.1.2]
  ∧ triggered r.2 = []
  ∧ match persist with
    | Resolved _ => persisted r.1.2 = content r.1.2
    | Rejected _ => persisted r.1.2 = persisted s
    end.
Proof.
  cbv zeta. session_unfold. cbn.
  destruct persist as [[]|e]; cbn; repeat split.
Qed.

(** *** What _setup and _clear amount to *)

Lemma setup_run name data trigger persist s :
  _setup name data trigger persist s =
  let c := merged name {| authenticated := Some data;
                          custom := custom (content s) |} in
  (Resolved (),
   match persist with
   | Resolved _ =>
       {| authenticator := name; isAuthenticated := true;
          attemptedTransition := attemptedTransition s;
          content := c; _busy := _busy s; persisted := c |}
   | Rejected _ =>
       {| authenticator := VNull; isAuthenticated := false;
          attemptedTransition := attemptedTransition s;
          content := {| authenticated := Some ∅; custom := custom c |};
          _busy := _busy s; persisted := persisted s |}
   end,
   On name :: Persist c ::
     match persist with
     | Resolved _ => if trigger && negb (isAuthenticated s)
                     then [Trigger authenticationSucceeded] else []
     | Rejected _ => []
     end).
Proof.
  unfold _setup, _updateStore, merged. monad_unfold. cbn.
  destruct persist, (isEmpty name), (trigger && negb (isAuthenticated s));
    reflexivity.
Qed.

Lemma clear_run trigger persist s :
  _clear trigger persist s =
  let c := {| authenticated := Some ∅; custom := custom (content s) |} in
  (persist,
   {| authenticator := VNull; isAuthenticated := false;
      attemptedTransition := attemptedTransition s;
      content := c; _busy := _busy s;
      persisted := match persist with
                   | Resolved _ => c
                   | Rejected _ => persisted s
                   end |},
   Persist c ::
     match persist with
     | Resolved _ => if trigger && isAuthenticated s
                     then [Trigger invalidationSucceeded] else []
     | Rejected _ => []
     end).
Proof.
  unfold _clear, _updateStore. monad_unfold. cbn.
  destruct persist as [[]|e], (trigger && isAuthenticated s); reflexivity.
Qed.

(** *** All operations *)

(** Simplify [run op s] for each kind of operation, with the replies, the
    busy flag and the previous authentication state split into cases. *)
Ltac run_cases op s :=
  unfold run;
  destruct op as [name reply persist|reply persist|stored reply persist
                 |key v persist|data persist|persist|payload reply persist];
  [ unfold authenticate, authenticate_begin, authenticate_settled;
    monad_unfold; destruct reply; session_simpl;
    rewrite ?setup_run, ?clear_run;
    destruct persist as [[]|?], (isAuthenticated s) eqn:?; session_simpl
  | unfold invalidate; monad_unfold; session_simpl;
    destruct (isAuthenticated s) eqn:?, reply; session_simpl;
    rewrite ?clear_run; destruct persist as [[]|?]; session_simpl;
    repeat match goal with
           | H : isAuthenticated s = _ |- _ => rewrite ?H
           end; session_simpl
  | unfold restore; monad_unfold;
    destruct stored as [stored|];
    [destruct (truthy (authenticatorFactory stored)) eqn:?, reply|];
    session_simpl; rewrite ?setup_run, ?clear_run;
    destruct persist as [[]|?]; session_simpl
  | unfold setUnknownProperty, _updateStore; monad_unfold;
    destruct (String.prefix "_" key), persist as [[]|?]; session_simpl
  | unfold _onSessionDataUpdated; monad_unfold; rewrite setup_run;
    destruct persist as [[]|?]; session_simpl
  | unfold _onSessionDataInvalidated; monad_unfold; rewrite clear_run;
    destruct persist as [[]|?], (isAuthenticated s) eqn:?; session_simpl
  | unfold onStoreSessionDataUpdated; monad_unfold;
    destruct (_busy s) eqn:?; session_simpl;
    [|destruct (truthy (authenticatorFactory payload)) eqn:?, reply;
      session_simpl; rewrite ?setup_run, ?clear_run;
      destruct persist as [[]|?], (isAuthenticated s) eqn:?; session_simpl] ].

(** *** invalidate and attemptedTransition *)

(** The user signs out in another tab while this one is authenticated: the
    session is invalidated and [invalidationSucceeded] is triggered, and
    the handle is still there. *)
Example invalidated_from_other_tab :
  run (StoreDataUpdated signed_out_elsewhere (Resolved ∅) (Resolved ()))
    signed_in
  = (signed_out_by_other_tab,
     [Persist {| authenticated := Some ∅; custom := ∅ |};
      Trigger invalidationSucceeded]).
Proof. compute_done. Qed.

(** C9, as stated, fails there: the session is invalidated and
    [attemptedTransition] is not cleared. *)
Lemma invalidation_counterexample :
  ¬ handle_cleared_on_invalidation
      (StoreDataUpdated signed_out_elsewhere (Resolved ∅) (Resolved ()))
      signed_in.
Proof.
  unfold handle_cleared_on_invalidation. rewrite invalidated_from_other_tab.
  intros H. specialize (H eq_refl eq_refl). discriminate H.
Qed.

(** C9 (amended): every call of [invalidate] clears [attemptedTransition],
    whatever the state of the session and whatever the authenticator and
    the store answer (also when the authenticator refuses and the session
    stays authenticated); while the session is not authenticated the call
    resolves at once and does nothing else: no authenticator is called,
    nothing is persisted or triggered. No other operation touches
    [attemptedTransition]: an invalidation that does not come from
    [invalidate] (a store notification from another tab, the
    authenticator's [sessionDataInvalidated], a failed [authenticate] or
    [restore]) leaves the handle as it was. *)
Theorem invalidate_clears_attemptedTransition (op : operation) (s : session) :
  match op with
  | Invalidate reply persist =>
      attemptedTransition (run op s).1 = None
      ∧ (isAuthenticated s = false →
           invalidate reply persist s =
           (Resolved (),
            {| authenticator := authenticator s;
               isAuthenticated := false;
               attemptedTransition := None;
               content := content s;
               _busy := false;
               persisted := persisted s |},
            []))
  | _ => attemptedTransition (run op s).1 = attemptedTransition s
  end.
Proof.
  run_cases op s; try done; split; done.
Qed.

Lemma invalidate_clears_attemptedTransition_witness :
  isAuthenticated signed_out = false ∧
  invalidate (Resolved ()) (Resolved ()) signed_out =
  (Resolved (),
   {| authenticator := VNull;
      isAuthenticated := false;
      attemptedTransition := None;
      content := {| authenticated := Some ∅; custom := ∅ |};
      _busy := false;
      persisted := {| authenticated := Some ∅; custom := ∅ |} |},
   []).
Proof.
  split; [reflexivity|].
  exact (proj2 (invalidate_clears_attemptedTransition
                  (Invalidate (Resolved ()) (Resolved ())) signed_out)
           eq_refl).
Defined.

(** *** The store's sessionDataUpdated notification *)

(** C3: a notification that arrives while [_busy] is set is dropped: the
    session is unchanged and nothing happens. Otherwise, if the payload
    names an authenticator, its [restore] is called with the payload's
    authenticated data (the name removed); when that resolves the payload
    becomes the content and the resolved data are installed by [_setup]
    with [trigger = true]: once the store has taken the write the session is
    authenticated by the named authenticator and [authenticationSucceeded]
    is triggered exactly if the session was not authenticated before (a
    failed write leaves the session cleared and triggers nothing). When
    [restore] rejects, or the payload names no authenticator, the session
    is cleared with [trigger = true]: [invalidationSucceeded] is triggered
    exactly if the session was authenticated before and the write
    succeeded. [_busy] is released in every case. *)
Theorem store_notification (payload : snapshot) (reply : outcome obj)
    (persist : outcome ()) (s : session) :
  let r := onStoreSessionDataUpdated payload reply persist s in
  let name := authenticatorFactory payload in
  let restoring := delete_authenticator payload in
  (_busy s = true → r = ((), s, []))
  ∧ (_busy s = false →
       _busy r.1.2 = false
       ∧ custom (content r.1.2) = custom payload
       ∧ match truthy name, reply with
         | true, Resolved data =>
             calls r.2 = [(name, "restore")]
             ∧ head r.2 = Some (Call name "restore" (authenticated restoring))
             ∧ r.1.2 = (_setup name data true persist
                          {| authenticator := authenticator s;
                             isAuthenticated := isAuthenticated s;
                             attemptedTransition := attemptedTransition s;
                             content := restoring;
                             _busy := false;
                             persisted := persisted s |}).1.2
             ∧ match persist with
               | Resolved _ =>
                   isAuthenticated r.1.2 = true
                   ∧ authenticator r.1.2 = name
                   ∧ authenticated (content r.1.2)
                     = Some (assign {[ "authenticator" := name ]} data)
                   ∧ persisted r.1.2 = content r.1.2
                   ∧ triggered r.2 = if isAuthenticated s then []
                                     else [authenticationSucceeded]
               | Rejected _ => cleared r.1.2 ∧ triggered r.2 = []
               end
         | true, Rejected _ =>
             calls r.2 = [(name, "restore")]
             ∧ head r.2 = Some (Call name "restore" (authenticated restoring))
             ∧ cleared r.1.2
             ∧ match persist with
               | Resolved _ =>
                   persisted r.1.2 = content r.1.2
                   ∧ triggered r.2 = if isAuthenticated s
                                     then [invalidationSucceeded] else []
               | Rejected _ => triggered r.2 = []
               end
         | false, _ =>
             calls r.2 = []
             ∧ cleared r.1.2
             ∧ match persist with
               | Resolved _ =>
                   persisted r.1.2 = content r.1.2
                   ∧ triggered r.2 = if isAuthenticated s
                                     then [invalidationSucceeded] else []
               | Rejected _ => triggered r.2 = []
               end
         end).
Proof.
  cbv zeta. unfold onStoreSessionDataUpdated. monad_unfold. split.
  - intros ->. by destruct s.
  - intros ->. session_simpl.
    destruct (truthy (authenticatorFactory payload)) eqn:Hname.
    + apply truthy_not_empty in Hname.
      destruct reply as [data|e]; session_simpl;
        rewrite ?setup_run, ?clear_run; unfold merged; rewrite ?Hname;
        destruct persist as [[]|e'], (isAuthenticated s);
        session_simpl; repeat split.
    + session_simpl. rewrite clear_run.
      destruct reply as [data|e], persist as [[]|e'], (isAuthenticated s);
        session_simpl; repeat split.
Qed.

Lemma store_notification_witness :
  _busy authenticating = true ∧ _busy signed_out = false ∧
  onStoreSessionDataUpdated from_other_tab (Resolved token_AT2) (Resolved ())
    authenticating = ((), authenticating, []) ∧
  let r := onStoreSessionDataUpdated from_other_tab (Resolved token_AT2)
             (Resolved ()) signed_out in
  isAuthenticated r.1.2 = true ∧ authenticator r.1.2 = VStr "x"
  ∧ triggered r.2 = [authenticationSucceeded].
Proof.
  pose proof (store_notification from_other_tab (Resolved token_AT2)
                (Resolved ()) authenticating) as [Hdrop _].
  pose proof (store_notification from_other_tab (Resolved token_AT2)
                (Resolved ()) signed_out) as [_ Hrun].
  split; [reflexivity|]. split; [reflexivity|].
  split; [exact (Hdrop eq_refl)|].
  destruct (Hrun eq_refl) as (_ & _ & H). cbn in H.
  destruct H as (_ & _ & _ & Hauth & Hby & _ & _ & Hev).
  cbv zeta. split; [exact Hauth|]. split; [exact Hby | exact Hev].
Defined.

(** *** authenticationSucceeded *)

(** C6: whatever happens to a session, [authenticationSucceeded] is
    triggered at most once, and only by a run that starts unauthenticated
    and ends authenticated. A data update emitted by the bound
    authenticator (a token refresh) triggers nothing at all; once the store
    has taken the write the session is authenticated and its authenticated
    content is the new data (with the authenticator's name, when one is
    bound). *)
Theorem authenticationSucceeded_once (op : operation) (s : session) :
  let r := run op s in
  (successes r.2 ≤ 1)%nat
  ∧ (successes r.2 ≠ 0%nat →
       isAuthenticated s = false ∧ isAuthenticated r.1 = true)
  ∧ (∀ data persist, op = AuthenticatorDataUpdated data persist →
       triggered r.2 = []
       ∧ match persist with
         | Resolved _ =>
             isAuthenticated r.1 = true
             ∧ authenticator r.1 = authenticator s
             ∧ authenticated (content r.1)
               = Some (if isEmpty (authenticator s) then data
                       else assign {[ "authenticator" := authenticator s ]} data)
         | Rejected _ => True
         end).
Proof.
  cbv zeta. split; [|split].
  - destruct op as [name reply persist|reply persist|stored reply persist
                   |key v persist|data persist|persist|payload reply persist];
      unfold run, successes.
    + unfold authenticate, authenticate_begin, authenticate_settled.
      monad_unfold. destruct reply; session_simpl;
        rewrite ?setup_run, ?clear_run;
        destruct persist, (isAuthenticated s); session_simpl; lia.
    + unfold invalidate. monad_unfold. session_simpl.
      destruct (isAuthenticated s) eqn:Hwas, reply; session_simpl;
        rewrite ?clear_run; destruct persist; session_simpl;
        rewrite ?Hwas; session_simpl; lia.
    + unfold restore. monad_unfold.
      destruct stored as [stored|];
        [destruct (truthy (authenticatorFactory stored)), reply|];
        session_simpl; rewrite ?setup_run, ?clear_run;
        destruct persist; session_simpl; lia.
    + unfold setUnknownProperty, _updateStore. monad_unfold.
      destruct (String.prefix "_" key); session_simpl; lia.
    + unfold _onSessionDataUpdated. monad_unfold. rewrite setup_run.
      destruct persist; session_simpl; lia.
    + unfold _onSessionDataInvalidated. monad_unfold. rewrite clear_run.
      destruct persist, (isAuthenticated s); session_simpl; lia.
    + unfold onStoreSessionDataUpdated. monad_unfold.
      destruct (_busy s); session_simpl; [lia|].
      destruct (truthy (authenticatorFactory payload)), reply;
        session_simpl; rewrite ?setup_run, ?clear_run;
        destruct persist, (isAuthenticated s); session_simpl; lia.
  - destruct op as [name reply persist|reply persist|stored reply persist
                   |key v persist|data persist|persist|payload reply persist];
      unfold run, successes.
    + unfold authenticate, authenticate_begin, authenticate_settled.
      monad_unfold. destruct reply; session_simpl;
        rewrite ?setup_run, ?clear_run;
        destruct persist, (isAuthenticated s); session_simpl; done.
    + unfold invalidate. monad_unfold. session_simpl.
      destruct (isAuthenticated s) eqn:Hwas, reply; session_simpl;
        rewrite ?clear_run; destruct persist; session_simpl;
        rewrite ?Hwas; session_simpl; done.
    + unfold restore. monad_unfold.
      destruct stored as [stored|];
        [destruct (truthy (authenticatorFactory stored)), reply|];
        session_simpl; rewrite ?setup_run, ?clear_run;
        destruct persist; session_simpl; done.
    + unfold setUnknownProperty, _updateStore. monad_unfold.
      destruct (String.prefix "_" key); session_simpl; done.
    + unfold _onSessionDataUpdated. monad_unfold. rewrite setup_run.
      destruct persist; session_simpl; done.
    + unfold _onSessionDataInvalidated. monad_unfold. rewrite clear_run.
      destruct persist, (isAuthenticated s); session_simpl; done.
    + unfold onStoreSessionDataUpdated. monad_unfold.
      destruct (_busy s); session_simpl; [done|].
      destruct (truthy (authenticatorFactory payload)), reply;
        session_simpl; rewrite ?setup_run, ?clear_run;
        destruct persist, (isAuthenticated s); session_simpl; done.
  - intros data persist ->. unfold run, _onSessionDataUpdated. monad_unfold.
    rewrite setup_run. unfold merged.
    destruct persist as [[]|e]; session_simpl; [|done].
    split; [done|]. split; [done|].
    by destruct (isEmpty (authenticator s)).
Qed.

End SessionFacts.

(** ** Further properties of the authenticator *)

Module OAuth2Behaviour.
Import OAuth2PasswordGrant OAuth2Transport OAuth2Statements OAuth2Notions
  OAuth2Facts.

Local Open Scope Z_scope.

(** *** authenticate, end to end *)

(** X1: Over [fetch], [authenticate] resolves exactly when the response is ok,
    its body parses and the parsed object has a non-empty [access_token];
    a failed fetch, an error status and an unparsable body (whatever the
    status) reject with the failed response and leave the refresh timer,
    its handle and the events as they were. An ok response whose body is
    [null] leaves the promise pending. *)
Theorem authenticate_fetch_outcome (parse : string → option json)
    (cfg : config) (rt : runtime) (identification password : value)
    (scope : list string) (now now2 : Z) (roll : nat) (f : fetched)
    (st : state) :
  let r := authenticate_fetch parse cfg rt identification password scope
             now now2 roll f st in
  ((∃ data, r.1 = Some (Resolved data)) ↔
   (∃ text response, f = Fetched true text ∧ parse text = Some (JObj response)
                     ∧ _validate response = true))
  ∧ (∀ e, makeRequest_settled parse f = Rejected e →
       r.1 = Some (Rejected e)
       ∧ timers r.2 = timers st
       ∧ _refreshTokenTimeout r.2 = _refreshTokenTimeout st
       ∧ sessionDataUpdated r.2 = sessionDataUpdated st)
  ∧ (∀ text, f = Fetched true text → parse text = None →
       r.1 = Some (Rejected (Response (Unparsable text))))
  ∧ (∀ text, f = Fetched true text → parse text = Some JNull → r.1 = None).
Proof.
  cbv zeta. unfold authenticate_fetch, authenticate, authenticate_body.
  split; [|split; [|split]].
  - destruct f as [|ok text]; cbn.
    { split; [intros [data H]; discriminate H | intros (? & ? & H & _); discriminate H]. }
    destruct (parse text) as [body|] eqn:Hparse; cycle 1.
    { split; [intros [data H]; discriminate H|].
      intros (? & ? & [= <- <-] & H & _). congruence. }
    destruct ok; cbn; cycle 1.
    { split; [intros [data H]; discriminate H|].
      intros (? & ? & H & _). discriminate H. }
    destruct body as [|response|]; cbn.
    + split; [intros [data H]; discriminate H|].
      intros (? & ? & [= <-] & Hp & _). congruence.
    + unfold authenticate_fulfilled. cbn [fst].
      destruct (_validate response) eqn:Hvalid; cbn.
      * split; [|intros _; by eexists].
        intros _. exists text, response. rewrite Hparse. done.
      * split; [intros [data H]; discriminate H|].
        intros (? & j & [= <-] & Hj & Hv). congruence.
    + split; [intros [data H]; discriminate H|].
      intros (? & ? & [= <-] & Hp & _). congruence.
  - intros e He. rewrite He. done.
  - intros text -> Hparse. cbn. rewrite Hparse. done.
  - intros text -> Hparse. cbn. rewrite Hparse. done.
Qed.

Lemma authenticate_fetch_outcome_witness :
  (authenticate_fetch parse_sample defaults browser (VStr "bob") (VStr "pw") []
     1000000 1000000 0 (Fetched true "<html>") initial).1
  = Some (Rejected (Response (Unparsable "<html>"))).
Proof.
  destruct (authenticate_fetch_outcome parse_sample defaults browser
              (VStr "bob") (VStr "pw") [] 1000000 1000000 0
              (Fetched true "<html>") initial) as (_ & _ & H & _).
  apply (H "<html>"); reflexivity.
Defined.

(** *** authenticate on a valid response *)

(** X2: A success reply (an object) with a non-empty [access_token] always
    resolves. The resolved object is the response with at most
    [expires_at] changed; an [expires_in] that reads as the number [n]
    (an integer up to [MAX_SAFE_INTEGER] or a string of decimal digits
    spelling one) gives [expires_at = now + n * 1000] when that is a time
    value and NaN when it lies beyond [MAX_TIME]; with no [expires_in]
    the response is resolved as it came and no timer is created or
    cancelled. *)
Theorem authenticate_valid_response (cfg : config) (rt : runtime)
    (identification password : value) (scope : list string)
    (now now2 : Z) (roll : nat) (response : obj) (st : state) :
  clock now → exactb (get response "expires_in") = true →
  _validate response = true →
  let r := authenticate cfg rt identification password scope now now2 roll
             (Resolved (JObj response)) st in
  ∃ data,
    r.1 = Some (Resolved data)
    ∧ (∀ k, k ≠ "expires_at" → data !! k = response !! k)
    ∧ (∀ n, isEmpty (get response "expires_in") = false →
         toNumber (get response "expires_in") = Some n →
         data !! "expires_at"
         = Some (if (Z.abs (now + n * 1000) <=? MAX_TIME)%Z
                 then VNum (now + n * 1000) else VNaN))
    ∧ (isEmpty (get response "expires_in") = true →
         data = response
         ∧ timers r.2 = timers st
         ∧ _refreshTokenTimeout r.2 = _refreshTokenTimeout st).
Proof.
  intros _ _ Hvalid. cbv zeta.
  unfold authenticate, authenticate_body, authenticate_fulfilled.
  cbn [props]. rewrite Hvalid. cbn [negb fst snd resolve].
  unfold _absolutizeExpirationTime.
  destruct (isEmpty (get response "expires_in")) eqn:Hin; cbn [negb isEmpty].
  - exists response. split; [done|]. split; [done|]. split.
    + intros n Hn. discriminate Hn.
    + intros _. split; [done|].
      unfold _scheduleAccessTokenRefresh, effectiveExpiresAt.
      rewrite Hin. cbn.
      destruct (refreshAccessTokens cfg && negb (isFastBoot rt)); [|done].
      by rewrite andb_false_r.
  - assert (isEmpty (dateAfter now (get response "expires_in")) = false) as Hd.
    { unfold dateAfter. destruct (toNumber _) as [n|]; [|done]. cbn.
      by destruct (timeClip _). }
    rewrite Hd. cbn [negb]. eexists. split; [reflexivity|].
    split; [|split; [|discriminate]].
    + intros k Hk. unfold assign. rewrite lookup_union_r; [done|].
      by apply lookup_singleton_ne.
    + intros n _ Hn. unfold assign. rewrite (dateAfter_number _ _ _ Hn).
      erewrite lookup_union_Some_l; [reflexivity|]. apply lookup_singleton_eq.
Qed.

Lemma authenticate_valid_response_witness :
  ∃ data,
    (authenticate defaults browser (VStr "bob") (VStr "pw") [] 1000000 1000001 0
       (Resolved (JObj granted)) initial).1 = Some (Resolved data)
    ∧ data !! "expires_at" = Some (VNum 4600000)
    ∧ data !! "access_token" = Some (VStr "AT1").
Proof.
  assert (clock 1000000) as Hnow by (unfold clock, MAX_TIME; lia).
  destruct (authenticate_valid_response defaults browser (VStr "bob")
              (VStr "pw") [] 1000000 1000001 0 granted initial Hnow
              eq_refl eq_refl)
    as (data & Hres & Hkeep & Hat & _).
  exists data. split; [exact Hres|]. split.
  - apply (Hat 3600); reflexivity.
  - rewrite Hkeep by done. reflexivity.
Defined.

(** *** When the next refresh is due *)

(** In a browser with refresh enabled, a refresh token and an expiry [e]
    later than [now - offset] leave exactly the new timer, due in
    [e - now - offset] milliseconds. *)
Lemma schedule_in_browser cfg now roll expiresIn expiresAt refreshToken e st :
  refreshAccessTokens cfg = true →
  isEmpty refreshToken = false →
  isEmpty (effectiveExpiresAt now expiresIn expiresAt) = false →
  toNumber (effectiveExpiresAt now expiresIn expiresAt) = Some e →
  now - tokenRefreshOffset roll < e →
  at_most_one st →
  let st' := _scheduleAccessTokenRefresh cfg browser now roll expiresIn
               expiresAt refreshToken st in
  timers st' = [next_refresh st expiresIn refreshToken
                  (e - now - tokenRefreshOffset roll)]
  ∧ _refreshTokenTimeout st' = Some (next_timer st)
  ∧ requests st' = requests st
  ∧ sessionDataUpdated st' = sessionDataUpdated st.
Proof.
  intros Hon Htok Hset He Hlt Hone. cbv zeta.
  apply cancel_refresh_timers in Hone.
  unfold _scheduleAccessTokenRefresh. rewrite Hon, Htok, Hset.
  cbn [isFastBoot browser negb andb isTesting].
  unfold js_gt. rewrite He.
  destruct (Z.ltb_spec (now - tokenRefreshOffset roll) e) as [_|Hle]; [|lia].
  unfold later, next_refresh, cancel_refresh in *. cbn in *. rewrite Hone.
  done.
Qed.

(** X3: In a browser with refresh enabled, a success reply to [authenticate]
    that names a refresh token and an [expires_in] reading as [n >= 0]
    (an integer up to [MAX_SAFE_INTEGER] or a string of decimal digits
    spelling one) with [now + n * 1000] a time value leaves exactly one
    pending timer, provided that expiry is later than the clock reading of
    the scheduling step minus the offset (it is whenever the two readings
    of the clock are less than five seconds apart). The timer will call
    [_refreshAccessToken(expires_in, refresh_token)] in
    [now + n * 1000 - now2 - offset] milliseconds, that is
    [n * 1000 - offset] when the clock did not tick between the two
    readings, and the authenticator holds its handle. (The reply need not
    be valid for that.) *)
Theorem authenticate_schedules_refresh (cfg : config)
    (identification password : value) (scope : list string)
    (now now2 : Z) (roll : nat) (response : obj) (n : Z) (st : state) :
  clock now → clock now2 →
  exactb (get response "expires_in") = true →
  reachable cfg browser st →
  refreshAccessTokens cfg = true →
  isEmpty (get response "expires_in") = false →
  toNumber (get response "expires_in") = Some n → 0 ≤ n →
  now + n * 1000 ≤ MAX_TIME →
  isEmpty (get response "refresh_token") = false →
  let st' := (authenticate cfg browser identification password scope now now2
                roll (Resolved (JObj response)) st).2 in
  let offset := tokenRefreshOffset roll in
  (now2 - offset < now + n * 1000 →
     timers st' = [next_refresh st (get response "expires_in")
                     (get response "refresh_token")
                     (now + n * 1000 - now2 - offset)]
     ∧ _refreshTokenTimeout st' = Some (next_timer st))
  ∧ (now ≤ now2 < now + 5000 → now2 - offset < now + n * 1000)
  ∧ (now2 = now → now + n * 1000 - now2 - offset = n * 1000 - offset).
Proof.
  intros Hnow Hnow2 _ Hreach Hon Hset Hin Hn Hrange Htok. cbv zeta.
  pose proof (tokenRefreshOffset_range roll) as Hoff.
  split; [|split; [lia | intros ->; lia]].
  intros Hlate.
  apply reachable_at_most_one in Hreach.
  unfold authenticate, authenticate_body, authenticate_fulfilled.
  cbn [props snd].
  set (st1 := authenticate_post _ _ _ _ st).
  assert (at_most_one st1) as H1.
  { eapply at_most_one_same; [| |exact Hreach]; reflexivity. }
  assert (_absolutizeExpirationTime now (get response "expires_in")
          = VNum (now + n * 1000)) as Hat.
  { unfold _absolutizeExpirationTime. rewrite Hset. cbn [negb].
    rewrite (dateAfter_number _ _ _ Hin). unfold clock in Hnow.
    by destruct (Z.leb_spec (Z.abs (now + n * 1000)) MAX_TIME); [|lia]. }
  rewrite Hat.
  destruct (schedule_in_browser cfg now2 roll (get response "expires_in")
              (VNum (now + n * 1000)) (get response "refresh_token")
              (now + n * 1000) st1 Hon Htok eq_refl eq_refl Hlate H1)
    as (Ht & Hh & _).
  split; [exact Ht | exact Hh].
Qed.

Lemma authenticate_schedules_refresh_witness :
  timers (authenticate defaults browser (VStr "bob") (VStr "pw") []
            1000000 1000002 3 (Resolved (JObj granted)) initial).2
  = [next_refresh initial (VNum 3600) (VStr "RT1") 3591998].
Proof.
  assert (clock 1000000) as Hnow by (unfold clock, MAX_TIME; lia).
  assert (clock 1000002) as Hnow2 by (unfold clock, MAX_TIME; lia).
  refine (proj1 (proj1 (authenticate_schedules_refresh defaults (VStr "bob")
                  (VStr "pw") [] 1000000 1000002 3 granted 3600 initial
                  Hnow Hnow2 eq_refl (reachable_initial _ _) eq_refl eq_refl
                  eq_refl _ _ eq_refl) _)).
  - lia.
  - unfold MAX_TIME. lia.
  - vm_compute. reflexivity.
Defined.

(** X4: The refresh chain keeps itself going: in a browser with refresh
    enabled, a successful refresh (on a reply that is an object) with a
    refresh token in force and an [expires_in] in force reading as
    [n >= 0] (an integer up to [MAX_SAFE_INTEGER] or a string of decimal
    digits spelling one), with [now2 + n * 1000] a time value, leaves
    exactly one pending timer, due in [n * 1000 - offset] milliseconds,
    that will refresh with the values in force. The scheduling step
    derives the expiry from its own reading [now2] of the clock, so the
    delay does not depend on the clock. *)
Theorem refresh_reschedules (cfg : config)
    (expiresIn refreshToken scope : value) (now now2 : Z) (roll : nat)
    (response : obj) (n : Z) (st : state) :
  clock now2 →
  exactb (js_or (get response "expires_in") expiresIn) = true →
  reachable cfg browser st →
  refreshAccessTokens cfg = true →
  isEmpty (js_or (get response "expires_in") expiresIn) = false →
  toNumber (js_or (get response "expires_in") expiresIn) = Some n → 0 ≤ n →
  now2 + n * 1000 ≤ MAX_TIME →
  isEmpty (refreshTokenInForce response refreshToken) = false →
  let st' := (_refreshAccessToken cfg browser expiresIn refreshToken scope
                now now2 roll (Resolved (JObj response)) st).2 in
  timers st' = [next_refresh st (js_or (get response "expires_in") expiresIn)
                  (refreshTokenInForce response refreshToken)
                  (n * 1000 - tokenRefreshOffset roll)]
  ∧ _refreshTokenTimeout st' = Some (next_timer st).
Proof.
  intros Hnow2 _ Hreach Hon Hset Hin Hn Hrange Htok. cbv zeta.
  pose proof (tokenRefreshOffset_range roll) as Hoff.
  apply reachable_at_most_one in Hreach.
  unfold _refreshAccessToken, refresh_fulfilled. cbn [props snd].
  fold (refreshTokenInForce response refreshToken).
  set (st1 := refresh_post _ _ _ st).
  assert (at_most_one st1) as H1.
  { eapply at_most_one_same; [| |exact Hreach]; reflexivity. }
  set (expiresIn' := js_or (get response "expires_in") expiresIn) in *.
  assert (effectiveExpiresAt now2 expiresIn' VNull = VNum (now2 + n * 1000))
    as Hat.
  { unfold effectiveExpiresAt. rewrite Hset. cbn [isEmpty negb andb].
    rewrite (dateAfter_number _ _ _ Hin). unfold clock in Hnow2.
    by destruct (Z.leb_spec (Z.abs (now2 + n * 1000)) MAX_TIME); [|lia]. }
  destruct (schedule_in_browser cfg now2 roll expiresIn' VNull
              (refreshTokenInForce response refreshToken)
              (now2 + n * 1000) st1 Hon Htok) as (Ht & Hh & _);
    [by rewrite Hat | by rewrite Hat | lia | exact H1 |].
  cbn [timers trigger_sessionDataUpdated _refreshTokenTimeout].
  rewrite Ht, Hh. split; [|done]. do 2 f_equal. lia.
Qed.

Lemma refresh_reschedules_witness :
  timers (_refreshAccessToken defaults browser (VNum 3600) (VStr "RT1") VUndef
            2500 2501 0 (Resolved (JObj renewed)) initial).2
  = [next_refresh initial (VNum 3600) (VStr "RT1") 3595000].
Proof.
  assert (clock 2501) as Hnow2 by (unfold clock, MAX_TIME; lia).
  refine (proj1 (refresh_reschedules defaults (VNum 3600) (VStr "RT1") VUndef
                   2500 2501 0 renewed 3600 initial Hnow2 eq_refl
                   (reachable_initial _ _) eq_refl eq_refl eq_refl _ _
                   eq_refl)).
  - lia.
  - unfold MAX_TIME. lia.
Defined.

(** X5: For [expires_in] and [expires_at] that are [undefined], [null],
    integers up to [MAX_SAFE_INTEGER] or strings of decimal digits
    spelling such an integer, and a clock reading that is a time value:
    whenever [_scheduleAccessTokenRefresh] creates a timer, the delay it
    hands to [later] is a number (never NaN), namely the expiry (the given
    [expires_at], or else [now + expires_in * 1000], then at most
    [MAX_TIME]) minus [now] minus the offset; it is greater than
    [-2 * offset], hence greater than -20000 ms, and the timer carries the
    [expiresIn] and [refreshToken] of the call. *)
Theorem scheduled_delay_bound (cfg : config) (rt : runtime)
    (now : Z) (roll : nat) (expiresIn expiresAt refreshToken : value)
    (st : state) :
  clock now → exactb expiresIn = true → exactb expiresAt = true →
  let st' := _scheduleAccessTokenRefresh cfg rt now roll
               expiresIn expiresAt refreshToken st in
  let offset := tokenRefreshOffset roll in
  scheduled st st' →
  ∃ t e, last (timers st') = Some t
         ∧ ((isEmpty expiresAt = false ∧ toNumber expiresAt = Some e)
            ∨ (isEmpty expiresAt = true ∧ isEmpty expiresIn = false
               ∧ ∃ n, toNumber expiresIn = Some n ∧ e = now + n * 1000
                      ∧ Z.abs e ≤ MAX_TIME))
         ∧ timer_delay t = VNum (e - now - offset)
         ∧ - 2 * offset < e - now - offset
         ∧ -20000 < e - now - offset
         ∧ timer_expiresIn t = expiresIn
         ∧ timer_refreshToken t = refreshToken.
Proof.
  intros _ _ _. cbv zeta. unfold _scheduleAccessTokenRefresh, scheduled.
  pose proof (tokenRefreshOffset_range roll) as Hoff.
  destruct (refreshAccessTokens cfg && negb (isFastBoot rt)); [|done].
  destruct (negb (isEmpty refreshToken)); cbn [andb]; [|done].
  destruct (isEmpty (effectiveExpiresAt now expiresIn expiresAt)) eqn:Hset;
    cbn [andb negb]; [done|].
  unfold js_gt.
  destruct (toNumber (effectiveExpiresAt now expiresIn expiresAt)) as [e|]
    eqn:He; [|done].
  destruct (Z.ltb_spec (now - tokenRefreshOffset roll) e) as [Hlt|]; [|done].
  destruct (negb (isTesting rt)); [|done].
  intros _. eexists _, e. unfold later. cbn [timers].
  rewrite last_snoc. cbn.
  split; [done|]. split; [by apply effectiveExpiresAt_number|].
  repeat split; lia.
Qed.

Lemma scheduled_delay_bound_witness :
  ∃ t, last (timers (_scheduleAccessTokenRefresh defaults browser 10000000 0
                       (VNum 3600) (VNum 10000000) (VStr "RT1") initial))
       = Some t
       ∧ timer_delay t = VNum (-5000).
Proof.
  assert (clock 10000000) as Hnow by (unfold clock, MAX_TIME; lia).
  destruct (scheduled_delay_bound defaults browser 10000000 0 (VNum 3600)
              (VNum 10000000) (VStr "RT1") initial Hnow eq_refl eq_refl)
    as (t & e & Ht & He & Hd & _).
  { vm_compute. discriminate. }
  exists t. split; [exact Ht|].
  destruct He as [[_ He]|[He _]]; [|discriminate He].
  vm_compute in He. injection He as <-. exact Hd.
Defined.

(** *** No timers where refresh is off *)

Lemma schedule_off cfg rt now roll expiresIn expiresAt refreshToken st :
  refresh_off cfg rt → timers st = [] →
  timers (_scheduleAccessTokenRefresh cfg rt now roll
            expiresIn expiresAt refreshToken st) = [].
Proof.
  intros Hoff Hnone. unfold _scheduleAccessTokenRefresh.
  destruct (refreshAccessTokens cfg) eqn:Hon, (isFastBoot rt) eqn:Hfb;
    cbn [andb negb]; try done.
  destruct (negb (isEmpty refreshToken) && _ && _); [|done].
  destruct Hoff as [H|[H|H]]; try congruence. rewrite H. cbn [negb].
  unfold cancel_refresh, cancel. cbn. rewrite Hnone.
  by destruct (_refreshTokenTimeout st).
Qed.

(** X6: With automatic refresh disabled, in FastBoot and in a test build the
    authenticator never has a refresh timer pending, whatever is called
    and whatever the server answers. *)
Theorem no_timer_when_refresh_off (cfg : config) (rt : runtime) (st : state) :
  refresh_off cfg rt → reachable cfg rt st → timers st = [].
Proof.
  intros Hoff Hreach. induction Hreach as [|st st' _ IH Hstep]; [done|].
  destruct Hstep as
    [identification password scope now now2 roll server st
    |data now now2 roll server now' now2' roll' st
    |data server st
    |t now now2 roll server st Ht
    |url data st
    |t st Ht
    |now now2 roll response st
    |now now2 roll expiresIn refreshToken scope response st
    |st].
  - unfold authenticate, authenticate_body.
    destruct server as [body|e]; cbn [snd]; [|done].
    destruct (props body) as [response|]; [|done].
    unfold authenticate_fulfilled. cbn [snd]. by apply schedule_off.
  - unfold restore. destruct (expired data now).
    + destruct (refreshAccessTokens cfg) eqn:Hon; [|done].
      unfold _refreshAccessToken. destruct server as [body|e]; [|done].
      destruct (props body) as [response|]; [|done].
      unfold refresh_fulfilled. cbn [snd]. cbn [timers trigger_sessionDataUpdated].
      by apply schedule_off.
    + destruct (negb (_validate data)); [done|]. cbn [snd]. by apply schedule_off.
  - unfold invalidate.
    destruct (isEmpty (serverTokenRevocationEndpoint cfg)); cbn [snd];
      unfold cancel_refresh, cancel; cbn [timers].
    + rewrite IH. by destruct (_refreshTokenTimeout st).
    + destruct (foldl_makeRequest_frame cfg (serverTokenRevocationEndpoint cfg)
                  (revocation_forms data) st) as (-> & -> & _).
      rewrite IH. by destruct (_refreshTokenTimeout st).
  - rewrite IH in Ht. by apply not_elem_of_nil in Ht.
  - done.
  - rewrite IH in Ht. by apply not_elem_of_nil in Ht.
  - unfold authenticate_fulfilled. cbn [snd]. by apply schedule_off.
  - unfold refresh_fulfilled. cbn [snd]. cbn [timers trigger_sessionDataUpdated].
    by apply schedule_off.
  - unfold cancel_refresh, cancel. cbn [timers]. rewrite IH.
    by destruct (_refreshTokenTimeout st).
Qed.

Lemma no_timer_when_refresh_off_witness :
  timers (authenticate defaults test_build (VStr "bob") (VStr "pw") []
            1000000 1000000 0 (Resolved (JObj granted)) initial).2 = [].
Proof.
  apply (no_timer_when_refresh_off defaults test_build).
  - right. right. reflexivity.
  - eapply reachable_step; [apply reachable_initial | apply step_authenticate].
Defined.

(** *** What restore and the refresh send and emit *)

Lemma schedule_frame cfg rt now roll expiresIn expiresAt refreshToken st :
  let st' := _scheduleAccessTokenRefresh cfg rt now roll
               expiresIn expiresAt refreshToken st in
  requests st' = requests st ∧ sessionDataUpdated st' = sessionDataUpdated st.
Proof.
  cbv zeta. unfold _scheduleAccessTokenRefresh.
  destruct (refreshAccessTokens cfg && negb (isFastBoot rt)); [|done].
  destruct (negb (isEmpty refreshToken) && _ && _); [|done].
  by destruct (negb (isTesting rt)).
Qed.

(** The requests that have gone out after [_refreshAccessToken] are those
    after its POST, whatever the reply. *)
Lemma refresh_requests cfg rt expiresIn refreshToken scope now now2 roll
    server st :
  requests (_refreshAccessToken cfg rt expiresIn refreshToken scope
              now now2 roll server st).2
  = requests (refresh_post cfg refreshToken scope st).
Proof.
  unfold _refreshAccessToken.
  destruct server as [body|e]; [destruct (props body) as [response|]|];
    [|done..].
  unfold refresh_fulfilled. cbn [snd requests trigger_sessionDataUpdated].
  apply schedule_frame.
Qed.

(** X7: For a snapshot whose [expires_at] is [undefined], [null], an integer
    up to [MAX_SAFE_INTEGER] or a string of decimal digits spelling one,
    and a clock reading that is a time value: [restore] goes to the
    network only for an expired snapshot with refresh enabled, and then
    with exactly one POST to the token endpoint: a [refresh_token] grant
    carrying the stored [refresh_token] as it is (also when it is missing)
    and the stored [scope] only if [refreshAccessTokensWithScope] is set
    and the scope is non-empty. A snapshot is expired when its
    [expires_at] is not empty and reads as a number below the clock. *)
Theorem restore_requests (cfg : config) (rt : runtime) (data : obj)
    (now now2 : Z) (roll : nat) (server : reply) (now' now2' : Z) (roll' : nat)
    (st : state) :
  clock now → exactb (get data "expires_at") = true →
  let st' := (restore cfg rt data now now2 roll server now' now2' roll' st).2 in
  (expired data now && refreshAccessTokens cfg = false →
     requests st' = requests st)
  ∧ (expired data now && refreshAccessTokens cfg = true →
       ∃ q, requests st' = requests st ++ [q]
            ∧ req_url q = serverTokenEndpoint cfg
            ∧ req_data q !! 0%nat = Some ("grant_type", VStr "refresh_token")
            ∧ req_data q !! 1%nat
              = Some ("refresh_token", get data "refresh_token")
            ∧ (("scope", get data "scope") ∈ req_data q ↔
               refreshAccessTokensWithScope cfg = true
               ∧ isEmpty (get data "scope") = false))
  ∧ (expired data now = true ↔
       isEmpty (get data "expires_at") = false
       ∧ ∃ b, toNumber (get data "expires_at") = Some b ∧ b < now).
Proof.
  intros _ _. cbv zeta. split; [|split]; cycle 2.
  { unfold expired, js_lt. rewrite andb_true_iff, negb_true_iff.
    destruct (toNumber (get data "expires_at")) as [b|].
    - rewrite Z.ltb_lt. split.
      + intros [? ?]. split; [done|]. by exists b.
      + intros [? (b' & [= <-] & ?)]. done.
    - split; [intros [_ H]; discriminate H|].
      intros [_ (b & H & _)]. discriminate H. }
  all: unfold restore;
    destruct (expired data now), (refreshAccessTokens cfg); cbn [andb];
    try discriminate; intros _;
    try (destruct (negb (_validate data)); [done|]; apply schedule_frame);
    try done.
  rewrite refresh_requests.
  unfold refresh_post, makeRequest. cbn [requests].
  eexists. split; [reflexivity|]. cbn [req_url req_data].
  split; [done|].
  destruct (refreshAccessTokensWithScope cfg),
    (isEmpty (get data "scope")) eqn:Hs, (isEmpty (clientId cfg));
    cbn; (split; [done|]); (split; [done|]);
    rewrite ?elem_of_cons, ?elem_of_nil; intuition congruence.
Qed.

Lemma restore_requests_witness :
  ∃ q, requests (restore defaults browser expired_snapshot_strings 2000 2000 0
                   (Resolved (JObj renewed)) 2500 2500 0 initial).2 = [q]
       ∧ req_data q = [("grant_type", VStr "refresh_token");
                       ("refresh_token", VStr "RT1")].
Proof.
  assert (clock 2000) as Hnow by (unfold clock, MAX_TIME; lia).
  destruct (restore_requests defaults browser expired_snapshot_strings
              2000 2000 0 (Resolved (JObj renewed)) 2500 2500 0 initial
              Hnow eq_refl) as (_ & H & _).
  destruct H as (q & Hq & _); [vm_compute; reflexivity|].
  exists q. split; [exact Hq|].
  vm_compute in Hq. injection Hq as <-. reflexivity.
Defined.

(** X8: A successful refresh resolves with the server's reply in which
    [expires_in] and [refresh_token] are the server's when truthy and the
    previous ones otherwise (an [expires_in] of 0 from the server is
    ignored), triggers exactly one [sessionDataUpdated] carrying that same
    object, and does not look at [access_token]: apart from [expires_in],
    [expires_at], [refresh_token] and [scope] every property is the
    reply's. A reply that is neither an object nor [null] has none of
    these properties, so the previous values are kept. On the reply
    [null] the promise stays pending, nothing is triggered and the timer
    and its handle are left alone. A failed refresh rejects with no
    reason, triggers nothing and leaves the timer and its handle alone. *)
Theorem refresh_outcome (cfg : config) (rt : runtime)
    (expiresIn refreshToken scope : value) (now now2 : Z) (roll : nat)
    (server : reply) (st : state) :
  let r := _refreshAccessToken cfg rt expiresIn refreshToken scope
             now now2 roll server st in
  match server with
  | Resolved (JObj response) =>
      ∃ data,
        r.1 = Some (Resolved data)
        ∧ sessionDataUpdated r.2 = sessionDataUpdated st ++ [data]
        ∧ get data "refresh_token"
          = (if truthy (get response "refresh_token")
             then get response "refresh_token" else refreshToken)
        ∧ get data "expires_in"
          = (if truthy (get response "expires_in")
             then get response "expires_in" else expiresIn)
        ∧ (get response "expires_in" = VNum 0 → get data "expires_in" = expiresIn)
        ∧ (∀ k, k ∉ ["expires_in"; "expires_at"; "refresh_token"; "scope"] →
             data !! k = response !! k)
  | Resolved JOther =>
      ∃ data,
        r.1 = Some (Resolved data)
        ∧ sessionDataUpdated r.2 = sessionDataUpdated st ++ [data]
        ∧ get data "refresh_token" = refreshToken
        ∧ get data "expires_in" = expiresIn
  | Resolved JNull =>
      r.1 = None
      ∧ sessionDataUpdated r.2 = sessionDataUpdated st
      ∧ timers r.2 = timers st
      ∧ _refreshTokenTimeout r.2 = _refreshTokenTimeout st
  | Rejected _ =>
      r.1 = Some (Rejected NoReason)
      ∧ sessionDataUpdated r.2 = sessionDataUpdated st
      ∧ timers r.2 = timers st
      ∧ _refreshTokenTimeout r.2 = _refreshTokenTimeout st
  end.
Proof.
  cbv zeta. unfold _refreshAccessToken. destruct server as [body|e]; [|done].
  assert (∀ response,
    let r := refresh_fulfilled cfg rt now now2 roll expiresIn refreshToken
               scope response (refresh_post cfg refreshToken scope st) in
    ∃ data,
      r.1 = Some (Resolved data)
      ∧ sessionDataUpdated r.2 = sessionDataUpdated st ++ [data]
      ∧ get data "refresh_token"
        = (if truthy (get response "refresh_token")
           then get response "refresh_token" else refreshToken)
      ∧ get data "expires_in"
        = (if truthy (get response "expires_in")
           then get response "expires_in" else expiresIn)
      ∧ (get response "expires_in" = VNum 0 → get data "expires_in" = expiresIn)
      ∧ (∀ k, k ∉ ["expires_in"; "expires_at"; "refresh_token"; "scope"] →
           data !! k = response !! k)) as Hobj.
  { intros response. cbv zeta.
    unfold refresh_fulfilled. cbn [fst snd resolve].
    eexists. split; [reflexivity|]. split.
    { cbn [sessionDataUpdated trigger_sessionDataUpdated]. f_equal.
      by rewrite (proj2 (schedule_frame _ _ _ _ _ _ _ _)). }
    assert (∀ (d : obj) k, k ≠ "scope" →
              get (if refreshAccessTokensWithScope cfg
                      && negb (isEmpty (js_or (get response "scope") scope))
                   then <["scope" := js_or (get response "scope") scope]> d
                   else d) k = get d k) as Hscope.
    { intros d k Hk. destruct (_ && _); [|done]. by apply get_insert_ne. }
    split; [|split; [|split]].
    - rewrite Hscope by done. rewrite get_assign.
      rewrite lookup_insert_ne by done. rewrite lookup_insert_ne by done.
      by rewrite lookup_insert_eq.
    - rewrite Hscope by done. rewrite get_assign. by rewrite lookup_insert_eq.
    - intros Hzero. rewrite Hscope by done. rewrite get_assign.
      rewrite lookup_insert_eq. unfold js_or. by rewrite Hzero.
    - intros k Hk.
      rewrite !not_elem_of_cons in Hk. destruct Hk as (H1 & H2 & H3 & H4 & _).
      assert (∀ d : obj,
                (if refreshAccessTokensWithScope cfg
                    && negb (isEmpty (js_or (get response "scope") scope))
                 then <["scope" := js_or (get response "scope") scope]> d
                 else d) !! k = d !! k) as ->.
      { intros d. destruct (_ && _); [|done]. by apply lookup_insert_ne. }
      unfold assign. rewrite lookup_union_r; [done|].
      rewrite !lookup_insert_ne by done. apply lookup_empty. }
  destruct body as [|response|]; cbn [props].
  - done.
  - apply Hobj.
  - destruct (Hobj ∅) as (data & Hres & Hev & Htok & Hin & _).
    exists data. done.
Qed.

End OAuth2Behaviour.

(** ** Further properties of the session *)

Module SessionBehaviour.
Import InternalSession SessionStatements SessionNotions SessionFacts.

(** *** authenticate *)

(** X9: When the authenticator resolves, the promise of [authenticate]
    resolves too, whatever the store does. If the store takes the write the
    session is authenticated by the named authenticator, the store holds
    its content and [authenticationSucceeded] is triggered exactly if the
    session was not authenticated before; if the write fails the session
    ends unauthenticated and cleared, nothing is triggered, and the caller
    is still told that authentication succeeded. *)
Theorem authenticate_resolved (name : value) (data : obj)
    (persist : outcome ()) (s : session) :
  let r := authenticate name (Resolved data) persist s in
  r.1.1 = Resolved ()
  ∧ _busy r.1.2 = false
  ∧ calls r.2 = [(name, "authenticate")]
  ∧ match persist with
    | Resolved _ =>
        isAuthenticated r.1.2 = true
        ∧ authenticator r.1.2 = name
        ∧ content r.1.2
          = merged name {| authenticated := Some data;
                           custom := custom (content s) |}
        ∧ persisted r.1.2 = content r.1.2
        ∧ triggered r.2 = if isAuthenticated s then []
                          else [authenticationSucceeded]
    | Rejected _ =>
        cleared r.1.2 ∧ persisted r.1.2 = persisted s ∧ triggered r.2 = []
    end.
Proof.
  cbv zeta. unfold authenticate, authenticate_begin, authenticate_settled.
  monad_unfold. session_simpl. rewrite setup_run.
  destruct persist as [[]|e], (isAuthenticated s); session_simpl; repeat split.
Qed.

(** *** invalidate *)

(** X10: Invalidation is interceptable: when the authenticator rejects
    [invalidate] for an authenticated session, the promise rejects with
    the authenticator's error, [sessionInvalidationFailed] is triggered
    with it, nothing is written to the store, and the session stays as it
    was (authenticated, same authenticator and content) except that
    [attemptedTransition] is cleared. *)
Theorem invalidate_intercepted (error : rejection) (persist : outcome ())
    (s : session) :
  isAuthenticated s = true →
  invalidate (Rejected error) persist s =
  (Rejected error,
   {| authenticator := authenticator s;
      isAuthenticated := true;
      attemptedTransition := None;
      content := content s;
      _busy := false;
      persisted := persisted s |},
   [Call (authenticator s) "invalidate" (authenticated (content s));
    Trigger (sessionInvalidationFailed error)]).
Proof.
  intros Hin. unfold invalidate. monad_unfold. session_simpl.
  rewrite Hin. reflexivity.
Qed.

Lemma invalidate_intercepted_witness :
  isAuthenticated signed_in = true ∧
  (invalidate (Rejected (Message "no")) (Resolved ()) signed_in).1.1
  = Rejected (Message "no").
Proof.
  split; [reflexivity|].
  by rewrite (invalidate_intercepted (Message "no") (Resolved ()) signed_in eq_refl).
Defined.

(** X11: When the authenticator resolves [invalidate] for an authenticated
    session, the authenticator's events are unbound, the session is cleared
    (the application's keys stay) and the cleared content is written to the
    store. If the write succeeds [invalidationSucceeded] is triggered and
    the promise resolves; if it fails the promise rejects with the store's
    error and no event is triggered, although the session is already
    cleared. *)
Theorem invalidate_resolved (u : ()) (persist : outcome ()) (s : session) :
  isAuthenticated s = true →
  let r := invalidate (Resolved u) persist s in
  let c := {| authenticated := Some ∅; custom := custom (content s) |} in
  r.1.1 = persist
  ∧ cleared r.1.2
  ∧ content r.1.2 = c
  ∧ attemptedTransition r.1.2 = None
  ∧ _busy r.1.2 = false
  ∧ r.2 = [Call (authenticator s) "invalidate" (authenticated (content s));
           Off (authenticator s); Persist c]
          ++ match persist with
             | Resolved _ => [Trigger invalidationSucceeded]
             | Rejected _ => []
             end
  ∧ persisted r.1.2 = match persist with
                      | Resolved _ => c
                      | Rejected _ => persisted s
                      end.
Proof.
  intros Hin. cbv zeta. unfold invalidate. monad_unfold. session_simpl.
  rewrite Hin. session_simpl. rewrite clear_run. session_simpl. rewrite ?Hin.
  destruct persist as [[]|e]; session_simpl; repeat split.
Qed.

Lemma invalidate_resolved_witness :
  isAuthenticated signed_in = true ∧
  cleared (invalidate (Resolved ()) (Rejected (Message "quota")) signed_in).1.2
  ∧ (invalidate (Resolved ()) (Rejected (Message "quota")) signed_in).1.1
    = Rejected (Message "quota").
Proof.
  split; [reflexivity|].
  destruct (invalidate_resolved () (Rejected (Message "quota")) signed_in
              eq_refl) as (Hres & Hclear & _).
  split; [exact Hclear | exact Hres].
Defined.

(** X12: Signing in and then out always ends unauthenticated with empty
    authenticated content, whatever the store answers to either write,
    provided both authenticator calls resolve. *)
Theorem authenticate_then_invalidate (name : value) (data : obj) (u : ())
    (persist persist' : outcome ()) (s : session) :
  let s1 := (authenticate name (Resolved data) persist s).1.2 in
  let r := invalidate (Resolved u) persist' s1 in
  cleared r.1.2 ∧ _busy r.1.2 = false ∧ attemptedTransition r.1.2 = None
  ∧ custom (content r.1.2) = custom (content s).
Proof.
  cbv zeta. unfold authenticate, authenticate_begin, authenticate_settled.
  monad_unfold. session_simpl. rewrite setup_run.
  unfold invalidate. monad_unfold. unfold merged.
  destruct persist as [[]|e]; session_simpl; rewrite ?clear_run;
    destruct (isEmpty name); session_simpl; repeat split.
Qed.

(** *** restore *)

(** X13: Restoring is silent and fails without a reason. [restore] never
    triggers an event. Its promise resolves exactly when the store yields a
    snapshot that names an authenticator and that authenticator's [restore]
    resolves; in every other case it rejects with nothing. The session ends
    authenticated exactly when, in addition, the store takes the write that
    follows (so the promise can resolve for a session that ends
    unauthenticated), and otherwise it ends cleared. The application's keys
    are those of the snapshot, or the previous ones when the store could
    not be read. *)
Theorem restore_outcome (stored : outcome snapshot) (reply : outcome obj)
    (persist : outcome ()) (s : session) :
  let r := restore stored reply persist s in
  triggered r.2 = []
  ∧ _busy r.1.2 = false
  ∧ (r.1.1 = Resolved () ∨ r.1.1 = Rejected NoReason)
  ∧ (r.1.1 = Resolved () ↔
     ∃ c data, stored = Resolved c ∧ truthy (authenticatorFactory c) = true
               ∧ reply = Resolved data)
  ∧ (isAuthenticated r.1.2 = true ↔
     ∃ c data u, stored = Resolved c ∧ truthy (authenticatorFactory c) = true
                 ∧ reply = Resolved data ∧ persist = Resolved u)
  ∧ (isAuthenticated r.1.2 = false → cleared r.1.2)
  ∧ custom (content r.1.2)
    = match stored with
      | Resolved c => custom c
      | Rejected _ => custom (content s)
      end.
Proof.
  cbv zeta. unfold restore. monad_unfold.
  assert (∀ (r : outcome () * session * list effect) (c0 : obj),
            triggered r.2 = [] → _busy r.1.2 = false →
            r.1.1 = Rejected NoReason → isAuthenticated r.1.2 = false →
            cleared r.1.2 → custom (content r.1.2) = c0 →
            ¬ (∃ c data, stored = Resolved c
                         ∧ truthy (authenticatorFactory c) = true
                         ∧ reply = Resolved data) →
            triggered r.2 = [] ∧ _busy r.1.2 = false
            ∧ (r.1.1 = Resolved () ∨ r.1.1 = Rejected NoReason)
            ∧ (r.1.1 = Resolved () ↔
               ∃ c data, stored = Resolved c
                         ∧ truthy (authenticatorFactory c) = true
                         ∧ reply = Resolved data)
            ∧ (isAuthenticated r.1.2 = true ↔
               ∃ c data u, stored = Resolved c
                           ∧ truthy (authenticatorFactory c) = true
                           ∧ reply = Resolved data ∧ persist = Resolved u)
            ∧ (isAuthenticated r.1.2 = false → cleared r.1.2)
            ∧ custom (content r.1.2) = c0) as Hfail.
  { intros r c0 Hev Hbusy Hres Hout Hclear Hcustom Hno.
    split; [done|]. split; [done|]. split; [by right|].
    split; [split; [congruence | by intros H]|].
    split; [split; [congruence|]|done].
    intros (c & data & u & H1 & H2 & H3 & _). exfalso. apply Hno.
    by exists c, data. }
  destruct stored as [c|e]; cycle 1.
  { session_simpl. rewrite clear_run.
    destruct persist; apply Hfail; session_simpl; try done;
      try (repeat split); by intros (? & ? & ? & _). }
  destruct (truthy (authenticatorFactory c)) eqn:Hname; cycle 1.
  { session_simpl. rewrite clear_run.
    destruct persist; apply Hfail; session_simpl; try done;
      try (repeat split); intros (? & ? & [= <-] & ? & _); congruence. }
  pose proof (truthy_not_empty _ Hname) as Hne.
  destruct reply as [data|e]; session_simpl;
    rewrite ?setup_run, ?clear_run; cycle 1.
  { destruct persist; apply Hfail; session_simpl; try done;
      try (repeat split); by intros (? & ? & _ & _ & ?). }
  unfold merged. rewrite Hne. clear Hfail.
  destruct persist as [u|e]; session_simpl.
  - split; [done|]. split; [done|]. split; [by left|].
    split; [split; [intros _; by exists c, data | done]|].
    split; [split; [intros _; by exists c, data, u | done]|].
    split; [discriminate | done].
  - split; [done|]. split; [done|]. split; [by left|].
    split; [split; [intros _; by exists c, data | done]|].
    split; [split; [discriminate | by intros (? & ? & ? & _ & _ & _ & ?)]|].
    split; [intros _; repeat split | done].
Qed.

(** X14: What [_setup] writes, [restore] reads back: if the store took the write
    of [_setup] for authenticator [name] and data that have no
    [authenticator] property of their own, a later [restore] from that
    snapshot calls [restore] of the same authenticator with exactly those
    data; and if the authenticator resolves with them and the store takes
    the write, the restored session has the same authenticator and content
    as the one that was persisted, with no event triggered. *)
Theorem persist_then_restore (name : value) (data : obj) (trigger : bool)
    (s fresh : session) (reply : outcome obj) (persist : outcome ()) :
  truthy name = true →
  data !! "authenticator" = None →
  let s1 := (_setup name data trigger (Resolved ()) s).1.2 in
  let r := restore (Resolved (persisted s1)) reply persist fresh in
  r.2 !! 1%nat = Some (Call name "restore" (Some data))
  ∧ (reply = Resolved data → persist = Resolved () →
       isAuthenticated r.1.2 = true
       ∧ authenticator r.1.2 = authenticator s1
       ∧ content r.1.2 = content s1
       ∧ triggered r.2 = []).
Proof.
  intros Hname Hnone. cbv zeta. rewrite setup_run. session_simpl.
  pose proof (truthy_not_empty _ Hname) as Hne.
  assert (delete "authenticator" (assign {[ "authenticator" := name ]} data)
          = data) as Hback.
  { apply map_eq. intros k. unfold assign.
    destruct (decide (k = "authenticator")) as [->|Hk].
    - by rewrite lookup_delete_eq.
    - rewrite lookup_delete_ne by done. rewrite lookup_union_l; [done|].
      by apply lookup_singleton_ne. }
  assert (get (assign {[ "authenticator" := name ]} data) "authenticator"
          = name) as Hget.
  { unfold get, assign. rewrite lookup_union_r by done.
    by rewrite lookup_singleton_eq. }
  unfold restore. monad_unfold. unfold merged. rewrite Hne.
  unfold authenticatorFactory, delete_authenticator. session_simpl.
  rewrite Hget, Hname, Hback. split.
  - destruct reply; session_simpl; rewrite ?setup_run, ?clear_run;
      reflexivity.
  - intros -> ->. session_simpl. rewrite setup_run. unfold merged.
    rewrite Hne. session_simpl. repeat split.
Qed.

Lemma persist_then_restore_witness :
  let s1 := (_setup oauth2 token_AT1 true (Resolved ()) signed_out).1.2 in
  let r := restore (Resolved (persisted s1)) (Resolved token_AT1) (Resolved ())
             (init (persisted s1)) in
  truthy oauth2 = true ∧ token_AT1 !! "authenticator" = None
  ∧ content r.1.2 = content s1.
Proof.
  cbv zeta. split; [reflexivity|]. split; [reflexivity|].
  destruct (persist_then_restore oauth2 token_AT1 true signed_out
              (init (persisted (_setup oauth2 token_AT1 true (Resolved ())
                                  signed_out).1.2))
              (Resolved token_AT1) (Resolved ()) eq_refl eq_refl) as [_ H].
  exact (proj1 (proj2 (proj2 (H eq_refl eq_refl)))).
Defined.

(** *** setUnknownProperty *)

(** X15: Setting an application key stores the value under that key and leaves
    the other keys, the authentication state and the authenticator alone.
    For a key that starts with an underscore the call itself writes
    nothing to the store and has no other effect; the key stays in the
    content, though, and the next write hands it to the store with the
    rest of the content (the next [_updateStore], for instance the one of
    [_setup], persists it). Any other key causes exactly one write, of the
    content that now has the key. *)
Theorem setUnknownProperty_persists (key : string) (v : value)
    (persist : outcome ()) (s : session) :
  let r := setUnknownProperty key v persist s in
  custom (content r.1.2) !! key = Some v
  ∧ (∀ k, k ≠ key → custom (content r.1.2) !! k = custom (content s) !! k)
  ∧ isAuthenticated r.1.2 = isAuthenticated s
  ∧ authenticator r.1.2 = authenticator s
  ∧ triggered r.2 = []
  ∧ (String.prefix "_" key = true →
       r.2 = [] ∧ persisted r.1.2 = persisted s
       ∧ authenticated (content r.1.2) = authenticated (content s)
       ∧ (∀ persist', ∃ d,
            persists (_updateStore persist' r.1.2).2 = [d]
            ∧ custom d !! key = Some v)
       ∧ (∀ name data trigger, ∃ d,
            persists (_setup name data trigger (Resolved ()) r.1.2).2 = [d]
            ∧ custom d !! key = Some v
            ∧ custom (persisted
                        (_setup name data trigger (Resolved ()) r.1.2).1.2)
              !! key = Some v))
  ∧ (String.prefix "_" key = false →
       r.2 = [Persist (content r.1.2)]
       ∧ persisted r.1.2 = match persist with
                           | Resolved _ => content r.1.2
                           | Rejected _ => persisted s
                           end).
Proof.
  cbv zeta.
  assert (String.prefix "_" key = true →
          setUnknownProperty key v persist s =
          ((), {| authenticator := authenticator s;
                  isAuthenticated := isAuthenticated s;
                  attemptedTransition := attemptedTransition s;
                  content := {| authenticated := authenticated (content s);
                                custom := <[key := v]> (custom (content s)) |};
                  _busy := _busy s;
                  persisted := persisted s |}, [])) as Hunder.
  { intros Hkey. unfold setUnknownProperty. monad_unfold. rewrite Hkey.
    reflexivity. }
  split; [|split; [|split; [|split; [|split; [|split]]]]]; cycle 5.
  { intros Hkey. rewrite (Hunder Hkey). session_simpl.
    split; [done|]. split; [done|]. split; [done|]. split.
    - intros persist'. unfold _updateStore. monad_unfold. session_simpl.
      eexists. split; [reflexivity|].
      destruct (isEmpty (authenticator s)); session_simpl;
        apply lookup_insert_eq.
    - intros name data trigger. rewrite setup_run. session_simpl.
      eexists. split.
      { by destruct (trigger && negb (isAuthenticated s)). }
      unfold merged.
      destruct (isEmpty name); session_simpl;
        (split; apply lookup_insert_eq). }
  all: unfold setUnknownProperty, _updateStore; monad_unfold;
    destruct (String.prefix "_" key), persist as [[]|e],
      (isEmpty (authenticator s)) eqn:Hname; session_simpl;
    rewrite ?Hname; session_simpl;
    try apply lookup_insert_eq;
    try (intros k Hk; by apply lookup_insert_ne);
    try done.
Qed.

(** A flag set under ["_seen"] is not written by the call; the
    [sessionDataUpdated] of the authenticator that follows writes it. *)
Example underscore_key_persisted_later :
  persisted (setUnknownProperty "_seen" (VBool true) (Resolved ()) themed).1.2
  = persisted themed
  ∧ custom (persisted
              (run (AuthenticatorDataUpdated token_AT2 (Resolved ()))
                 (setUnknownProperty "_seen" (VBool true) (Resolved ())
                    themed).1.2).1)
    !! "_seen" = Some (VBool true).
Proof. split; vm_compute; reflexivity. Qed.

Lemma setUnknownProperty_persists_witness :
  String.prefix "_" "_seen" = true ∧
  (setUnknownProperty "_seen" (VBool true) (Resolved ()) themed).2 = []
  ∧ custom (content (setUnknownProperty "_seen" (VBool true) (Resolved ())
                       themed).1.2) !! "theme" = Some (VStr "dark")
  ∧ ∃ d, persists (_updateStore (Resolved ())
                     (setUnknownProperty "_seen" (VBool true) (Resolved ())
                        themed).1.2).2 = [d]
         ∧ custom d !! "_seen" = Some (VBool true).
Proof.
  destruct (setUnknownProperty_persists "_seen" (VBool true) (Resolved ())
              themed) as (_ & Hother & _ & _ & _ & Hunder & _).
  split; [reflexivity|]. split; [|split].
  - exact (proj1 (Hunder eq_refl)).
  - rewrite Hother by done. reflexivity.
  - destruct (Hunder eq_refl) as (_ & _ & _ & Hnext & _).
    exact (Hnext (Resolved ())).
Defined.

(** *** All operations *)

(** X16: The three calls of the service layer release [_busy] on every path:
    whatever the authenticator and the store answer, the flag is clear
    when the promise settles. *)
Theorem service_calls_release_busy (op : operation) (s : session) :
  service_call op = true → _busy (run op s).1 = false.
Proof.
  intros Hcall. run_cases op s; done.
Qed.

Lemma service_calls_release_busy_witness :
  _busy (run (Restore (Rejected NoReason) (Rejected NoReason)
               (Rejected NoReason)) authenticating).1 = false.
Proof.
  exact (service_calls_release_busy
           (Restore (Rejected NoReason) (Rejected NoReason) (Rejected NoReason))
           authenticating eq_refl).
Defined.

(** X17: Write-through: an operation writes to the store at most once. If it
    writes and the store takes the write, the store holds exactly the
    content the session ends with; if it does not write, or the write
    fails, the store keeps what it had. *)
Theorem write_through (op : operation) (s : session) :
  let r := run op s in
  (length (persists r.2) ≤ 1)%nat
  ∧ (persists r.2 = [] → persisted r.1 = persisted s)
  ∧ (OAuth2PasswordGrant.is_rejected (write_reply op) = true →
       persisted r.1 = persisted s)
  ∧ (persists r.2 ≠ [] →
     OAuth2PasswordGrant.is_rejected (write_reply op) = false →
       persists r.2 = [content r.1] ∧ persisted r.1 = content r.1).
Proof.
  cbv zeta. run_cases op s;
    (split; [cbn; lia|]); repeat split; try done.
Qed.

(** X18: [invalidationSucceeded] mirrors [authenticationSucceeded]: whatever
    happens to a session, it is triggered at most once, only by a run that
    starts authenticated and ends unauthenticated, and never together with
    [authenticationSucceeded]. *)
Theorem invalidationSucceeded_once (op : operation) (s : session) :
  let r := run op s in
  (invalidations r.2 ≤ 1)%nat
  ∧ (invalidations r.2 ≠ 0%nat →
       isAuthenticated s = true ∧ isAuthenticated r.1 = false)
  ∧ (successes r.2 + invalidations r.2 ≤ 1)%nat.
Proof.
  cbv zeta. unfold invalidations, successes. run_cases op s;
    (split; [cbn; lia|]); (split; [cbn; done|]); cbn; lia.
Qed.

(** *** The session between operations *)

Lemma assign_authenticator_key (name : value) (data : obj) :
  is_Some (assign {[ "authenticator" := name ]} data !! "authenticator").
Proof.
  unfold assign. rewrite lookup_union.
  destruct (data !! "authenticator"); cbn.
  - by eexists.
  - rewrite lookup_singleton_eq. by eexists.
Qed.

Lemma run_consistent (op : operation) (s : session) :
  consistent s → consistent (run op s).1.
Proof.
  intros (Hbusy & Hout & Hin). unfold consistent, cleared in *.
  run_cases op s; unfold merged;
    try (split; [done|]; split; [done|]; intros _;
         match goal with
         | |- context [isEmpty ?n] =>
             destruct (isEmpty n) eqn:Hn; session_simpl;
             eexists; (split; [reflexivity|]); intros Hn';
             [congruence | apply assign_authenticator_key]
         end);
    try (split; [done|]; split; [done|]; discriminate);
    try (split; [done|]; split; [intros _; repeat split|]; discriminate).
  all: try congruence.
  all: try (split; [done|]; split; [done|]; by apply Hin).
  all: try (split; [done|]; split; [by apply Hout|]; discriminate).
  all: split; [done|]; destruct (isEmpty (authenticator s)) eqn:Hn;
    session_simpl; split.
  all: try (intros Ho; by apply Hout).
  all: try (intros Hi; destruct (Hin Hi) as (a & Ha & _); exists a;
            split; [done | congruence]).
  all: try (intros Ho; destruct (Hout Ho) as (_ & Hnull & _);
            rewrite Hnull in Hn; discriminate Hn).
  all: intros _; eexists; (split; [reflexivity|]); intros _;
    apply assign_authenticator_key.
Qed.

(** X19: In every session an application can get to from [init], between
    operations: [_busy] is clear; a session that is not authenticated has
    no authenticator and empty authenticated content (so non-empty
    authenticated content, or a bound authenticator, means the session is
    authenticated); an authenticated session bound to an authenticator
    carries that key in its authenticated content, ready to be persisted
    and restored. *)
Theorem reachable_consistent (s : session) : reachable s → consistent s.
Proof.
  induction 1 as [stored|op s _ IH _].
  - unfold consistent, cleared, init. cbn. repeat split. discriminate.
  - by apply run_consistent.
Qed.

Lemma reachable_consistent_witness :
  consistent (run (Invalidate (Rejected NoReason) (Resolved ()))
                (run (Authenticate oauth2 (Resolved token_AT1) (Resolved ()))
                   (init {| authenticated := None; custom := ∅ |})).1).1.
Proof.
  apply reachable_consistent.
  apply reachable_run; [|exact I].
  apply reachable_run; [apply reachable_init | reflexivity].
Defined.

End SessionBehaviour.

